(** * contribute.py: the fast-import stream builder

    A shallow embedding of [build_fast_import_stream] and of the part of
    [main] that consumes its result, together with the properties of the
    schedule (which days receive commits, and how many) and of the
    produced stream (marks, parent chaining, commit times, messages).

    Python integers are [Z]; strings are [string]; the naive [datetime]
    values of the standard library are records of their seven fields, and
    the library operations the program calls on them ([replace],
    [+ timedelta], [weekday], [__format__]) follow the reference
    implementation of the [datetime] module. *)

From Stdlib Require Import ZArith List Bool Lia String Ascii Sorted.
From Stdlib Require Import Numbers.DecimalString.
Import ListNotations.

Local Open Scope Z_scope.

(** ** Exceptions *)

(** The exceptions the modelled code can raise: [OverflowError] from
    date arithmetic leaving the years 1..9999, [ValueError] from
    [randint] on an empty range, [SystemExit] from [sys.exit] with its
    message. *)
Inductive exn : Type :=
| OverflowError
| ValueError
| SystemExit (message : string).

Inductive result (A : Type) : Type :=
| Ok (a : A)
| Raise (e : exn).

Arguments Ok {A} a.
Arguments Raise {A} e.

Definition bind {A B : Type} (r : result A) (k : A -> result B) : result B :=
  match r with
  | Ok a => k a
  | Raise e => Raise e
  end.

Notation "x <- r ;; k" := (bind r (fun x => k))
  (at level 61, r at next level, right associativity).
Notation "' p <- r ;; k" := (bind r (fun p => k))
  (at level 61, p pattern, r at next level, right associativity).

(** ** The proleptic Gregorian calendar of the [datetime] module *)

Module Calendar.

Definition MINYEAR : Z := 1.
Definition MAXYEAR : Z := 9999.
Definition MAXORDINAL : Z := 3652059.

Definition is_leap (year : Z) : bool :=
  (year mod 4 =? 0) && (negb (year mod 100 =? 0) || (year mod 400 =? 0)).

Definition days_before_year (year : Z) : Z :=
  let y := year - 1 in
  y * 365 + y / 4 - y / 100 + y / 400.

(** [_DAYS_IN_MONTH], indexed from 1 (index 0 holds the placeholder -1). *)
Definition DAYS_IN_MONTH (month : Z) : Z :=
  match month with
  | 1 => 31 | 2 => 28 | 3 => 31 | 4 => 30 | 5 => 31 | 6 => 30
  | 7 => 31 | 8 => 31 | 9 => 30 | 10 => 31 | 11 => 30 | 12 => 31
  | _ => -1
  end.

(** [_DAYS_BEFORE_MONTH], indexed from 1. *)
Definition DAYS_BEFORE_MONTH (month : Z) : Z :=
  match month with
  | 1 => 0 | 2 => 31 | 3 => 59 | 4 => 90 | 5 => 120 | 6 => 151
  | 7 => 181 | 8 => 212 | 9 => 243 | 10 => 273 | 11 => 304 | 12 => 334
  | _ => -1
  end.

Definition b2z (b : bool) : Z := if b then 1 else 0.

Definition days_in_month (year month : Z) : Z :=
  if (month =? 2) && is_leap year then 29 else DAYS_IN_MONTH month.

Definition days_before_month (year month : Z) : Z :=
  DAYS_BEFORE_MONTH month + b2z ((2 <? month) && is_leap year).

Definition ymd2ord (year month day : Z) : Z :=
  days_before_year year + days_before_month year month + day.

Definition DI400Y : Z := 146097.
Definition DI100Y : Z := 36524.
Definition DI4Y : Z := 1461.

(** Month and day of the [n]-th day (from 0) of a year: the second half
    of [_ord2ymd], with its estimate [(n + 50) >> 5] and the correction
    when the estimate is one month too far. *)
Definition month_day (leapyear : bool) (n : Z) : Z * Z :=
  let month := Z.shiftr (n + 50) 5 in
  let preceding := DAYS_BEFORE_MONTH month + b2z ((2 <? month) && leapyear) in
  if n <? preceding then
    let month' := month - 1 in
    let preceding' :=
      preceding - (DAYS_IN_MONTH month' + b2z ((month' =? 2) && leapyear)) in
    (month', n - preceding' + 1)
  else (month, n - preceding + 1).

Definition ord2ymd (ordinal : Z) : Z * Z * Z :=
  let n := ordinal - 1 in
  let n400 := n / DI400Y in
  let n := n mod DI400Y in
  let n100 := n / DI100Y in
  let n := n mod DI100Y in
  let n4 := n / DI4Y in
  let n := n mod DI4Y in
  let n1 := n / 365 in
  let n := n mod 365 in
  let year := n400 * 400 + 1 + (n100 * 100 + n4 * 4 + n1) in
  if (n1 =? 4) || (n100 =? 4) then (year - 1, 12, 31)
  else
    let leapyear := (n1 =? 3) && (negb (n4 =? 24) || (n100 =? 3)) in
    let '(month, day) := month_day leapyear n in
    (year, month, day).

Definition valid_date (year month day : Z) : Prop :=
  MINYEAR <= year <= MAXYEAR /\ 1 <= month <= 12 /\
  1 <= day <= days_in_month year month.

(** Lexicographic order on (year, month, day). *)
Definition date_lt (a b : Z * Z * Z) : Prop :=
  let '(y1, m1, d1) := a in
  let '(y2, m2, d2) := b in
  y1 < y2 \/ (y1 = y2 /\ (m1 < m2 \/ (m1 = m2 /\ d1 < d2))).

(** The check that [month_day] inverts [days_before_month] at one day of
    a year, as a boolean, and the shape of the four divisions of
    [ord2ymd]; both serve the proofs about [ord2ymd]. *)
Definition month_day_ok (leap : bool) (n : Z) : bool :=
  let '(m, d) := month_day leap n in
  (1 <=? m) && (m <=? 12) && (1 <=? d) &&
  (d <=? DAYS_IN_MONTH m + b2z ((m =? 2) && leap)) &&
  (DAYS_BEFORE_MONTH m + b2z ((2 <? m) && leap) + d =? n + 1).

Record year_split (n q400 n100 n4 n1 r : Z) : Prop := {
  ys_eq : n = 146097 * q400 + 36524 * n100 + 1461 * n4 + 365 * n1 + r;
  ys_n100 : 0 <= n100 <= 4;
  ys_n4 : 0 <= n4 <= 24;
  ys_n1 : 0 <= n1 <= 4;
  ys_r : 0 <= r < 365;
  ys_100 : 1461 * n4 + 365 * n1 + r < 36524;
  ys_4 : 365 * n1 + r < 1461;
  ys_400 : 36524 * n100 + 1461 * n4 + 365 * n1 + r < 146097
}.

End Calendar.

(** ** Naive [datetime] values and [timedelta] *)

Record datetime : Type := mk_datetime {
  year : Z;
  month : Z;
  day : Z;
  hour : Z;
  minute : Z;
  second : Z;
  microsecond : Z
}.

(** What the [datetime] constructor accepts. *)
Definition valid_datetime (dt : datetime) : Prop :=
  Calendar.valid_date (year dt) (month dt) (day dt) /\
  0 <= hour dt < 24 /\ 0 <= minute dt < 60 /\ 0 <= second dt < 60 /\
  0 <= microsecond dt < 1000000.

(** The time-of-day part of [valid_datetime]. *)
Definition wf_time (dt : datetime) : Prop :=
  0 <= hour dt < 24 /\ 0 <= minute dt < 60 /\ 0 <= second dt < 60 /\
  0 <= microsecond dt < 1000000.

(** A [timedelta] in its normal form: any number of days, seconds in
    [0, 86400), microseconds in [0, 1000000). *)
Record timedelta_t : Type := mk_timedelta {
  td_days : Z;
  td_seconds : Z;
  td_microseconds : Z
}.

(** [timedelta(days=..., seconds=..., microseconds=...)]: the constructor
    carries microseconds into seconds and seconds into days.  Its own
    limit of 999999999 days is left out: every use below adds the value
    to a date at once, and a date further than 3652059 days from another
    is outside the years 1..9999, where the addition raises the same
    [OverflowError]. *)
Definition timedelta (days seconds microseconds : Z) : timedelta_t :=
  let s := seconds + microseconds / 1000000 in
  {| td_days := days + s / 86400;
     td_seconds := s mod 86400;
     td_microseconds := microseconds mod 1000000 |}.

(** [timedelta.__neg__] *)
Definition timedelta_neg (td : timedelta_t) : timedelta_t :=
  timedelta (- td_days td) (- td_seconds td) (- td_microseconds td).

Definition toordinal (dt : datetime) : Z :=
  Calendar.ymd2ord (year dt) (month dt) (day dt).

(** [datetime.weekday()]: Monday is 0, Sunday is 6. *)
Definition weekday (dt : datetime) : Z := (toordinal dt + 6) mod 7.

(** [datetime.replace(hour=..., minute=...)] *)
Definition replace_hour_minute (dt : datetime) (h m : Z) : datetime :=
  {| year := year dt; month := month dt; day := day dt;
     hour := h; minute := m;
     second := second dt; microsecond := microsecond dt |}.

(** [datetime.__add__(timedelta)]: the sum is taken on (ordinal, seconds
    of the day, microseconds), and raises when the day leaves 1..MAXORDINAL. *)
Definition datetime_add (dt : datetime) (td : timedelta_t) : result datetime :=
  let delta :=
    timedelta (toordinal dt + td_days td)
              (hour dt * 3600 + minute dt * 60 + second dt + td_seconds td)
              (microsecond dt + td_microseconds td) in
  let h := td_seconds delta / 3600 in
  let rem := td_seconds delta mod 3600 in
  let mi := rem / 60 in
  let s := rem mod 60 in
  if (0 <? td_days delta) && (td_days delta <=? Calendar.MAXORDINAL) then
    let '(y, m, d) := Calendar.ord2ymd (td_days delta) in
    Ok (mk_datetime y m d h mi s (td_microseconds delta))
  else Raise OverflowError.

(** [datetime.__sub__(timedelta)] is [self + -other]. *)
Definition datetime_sub (dt : datetime) (td : timedelta_t) : result datetime :=
  datetime_add dt (timedelta_neg td).




(** The position of a datetime on the time line, in microseconds, and
    the length of a [timedelta]. *)
Definition seconds_of_day (dt : datetime) : Z :=
  hour dt * 3600 + minute dt * 60 + second dt.

Definition instant (dt : datetime) : Z :=
  (toordinal dt * 86400 + seconds_of_day dt) * 1000000 + microsecond dt.

Definition total_microseconds (td : timedelta_t) : Z :=
  (td_days td * 86400 + td_seconds td) * 1000000 + td_microseconds td.

(** ** Text *)

Module Text.

Local Open Scope string_scope.

Definition LF : string := String "010"%char EmptyString.

(** [str(n)] for an integer. *)
Definition str (n : Z) : string := NilZero.string_of_int (Z.to_int n).

(** [len(s.encode("utf-8"))]: strings are byte strings here. *)
Definition len (s : string) : Z := Z.of_nat (String.length s).

(** [sep.join(l)] *)
Definition join (sep : string) (l : list string) : string := String.concat sep l.

Definition digit (d : Z) : ascii := ascii_of_nat (48 + Z.to_nat d).

(** Zero-padded decimal fields, as the documentation of [datetime]
    gives [%m], [%d], [%H], [%M] (two digits: 01, 02, ...) and [%Y] (four
    digits: 0001, ..., 9999) for the fields of a datetime. *)
Definition pad2 (n : Z) : string :=
  String (digit (n / 10 mod 10)) (String (digit (n mod 10)) EmptyString).

Definition pad4 (n : Z) : string :=
  String (digit (n / 1000 mod 10)) (String (digit (n / 100 mod 10)) (pad2 n)).

(** [format(dt, "%Y-%m-%d %H:%M")] *)
Definition strftime_Ymd_HM (dt : datetime) : string :=
  pad4 (year dt) ++ "-" ++ pad2 (month dt) ++ "-" ++ pad2 (day dt) ++ " " ++
  pad2 (hour dt) ++ ":" ++ pad2 (minute dt).

End Text.

(** ** The random source *)

(** The state of the [random] module: an arbitrary sequence of raw draws
    and the position of the next one.  Every sequence of outcomes of
    [randint] is the image of some [entropy]. *)
Record RandomState : Type := mk_random {
  entropy : nat -> Z;
  cursor : nat
}.

(** [random.randint(a, b)]: an integer of [a, b], both ends included;
    [ValueError] on an empty range. *)
Definition randint (a b : Z) (g : RandomState) : result (Z * RandomState) :=
  if b <? a then Raise ValueError
  else Ok (a + entropy g (cursor g) mod (b - a + 1),
           mk_random (entropy g) (S (cursor g))).

(** ** Loops *)

(** [range(n)] *)
Definition range (n : Z) : list Z := map Z.of_nat (seq 0 (Z.to_nat n)).

(** [for x in xs: body], threading the state the body updates; an
    exception in the body ends the loop. *)
Fixpoint for_each {A S : Type} (xs : list A) (body : A -> S -> result S)
    (s : S) : result S :=
  match xs with
  | [] => Ok s
  | x :: xs' => s' <- body x s ;; for_each xs' body s'
  end.

(** ** The program *)

Module Contribute.

Import Text.
Local Open Scope string_scope.
Local Open Scope Z_scope.

Definition README_CONTENT : string :=
  "# Contributions" ++ LF ++ LF ++ "Generated contribution history." ++ LF.

Record Config : Type := mk_config {
  no_weekends : bool;
  max_commits : Z;
  frequency : Z;
  days_before : Z;
  days_after : Z;
  repository : option string;
  user_name : option string;
  user_email : option string;
  force : bool;
  append : bool
}.

(** What the program reads from the platform it runs on: the offset
    [time.strftime("%z")] prints, and [int(dt.timestamp())], the local
    time zone's conversion of a naive datetime to Unix seconds. *)
Record Platform : Type := mk_platform {
  tz_offset : string;
  timestamp : datetime -> Z
}.

(** The values of the variable [parent]: an [int] mark or a [str]
    commit id ([None] is the [option]). *)
Inductive parent_ref : Type :=
| ParentMark (m : Z)
| ParentId (sha : string).

(** One iteration of the inner loop, as the values its locals took. *)
Record commit_entry : Type := mk_entry {
  ce_day : datetime;
  ce_minute_offset : Z;
  ce_time : datetime;
  ce_blob_mark : Z;
  ce_mark : Z;
  ce_parent : option parent_ref;
  ce_commit : list string
}.

(** The variables [parts], [mark], [parent] and [count].  [history] is a
    ghost field: it records every iteration of the inner loop and is
    read by no code. *)
Record builder : Type := mk_builder {
  parts : list string;
  mark : Z;
  parent : option parent_ref;
  count : Z;
  history : list commit_entry
}.

(** What the outer loop did with one day. *)
Inductive day_outcome : Type :=
| SkippedWeekend
| SkippedFrequency
| Commits (commits_today : Z).

(** The number of commits a day received; 0 for a skipped day. *)
Definition day_count (o : day_outcome) : Z :=
  match o with
  | Commits n => n
  | _ => 0
  end.

(** One iteration of the outer loop: the offset, the day, the outcome,
    and the random source before and after. *)
Record day_entry : Type := mk_day {
  de_offset : Z;
  de_day : datetime;
  de_before : RandomState;
  de_outcome : day_outcome;
  de_after : RandomState
}.

(** The state of the outer loop: the builder, the random source, and the
    ghost field [days], one entry per iteration so far. *)
Record loop_state : Type := mk_loop {
  st_builder : builder;
  st_random : RandomState;
  days : list day_entry
}.

Definition blob_part (mark : Z) : string :=
  "blob" ++ LF ++ "mark :" ++ str mark ++ LF ++
  "data " ++ str (len README_CONTENT) ++ LF ++ README_CONTENT.

(** The list [commit], with the [from] line when there is a parent. *)
Definition commit_lines (pf : Platform) (name email : string)
    (mark tstamp : Z) (msg : string) (parent : option parent_ref)
    (blob_mark : Z) : list string :=
  let commit :=
    ["commit refs/heads/main";
     "mark :" ++ str mark;
     "committer " ++ name ++ " <" ++ email ++ "> " ++ str tstamp ++ " " ++
       tz_offset pf;
     "data " ++ str (len msg);
     msg] in
  let from :=
    match parent with
    | None => []
    | Some (ParentId sha) => ["from " ++ sha]
    | Some (ParentMark m) => ["from :" ++ str m]
    end in
  let modify := ["M 100644 :" ++ str blob_mark ++ " README.md" ++ LF] in
  (commit ++ from ++ modify)%list.

Definition commit_message (commit_time : datetime) : string :=
  "Contribution: " ++ strftime_Ymd_HM commit_time.

(** The body of [for minute_offset in range(commits_today)];
    [timedelta(minutes=minute_offset)] is [minute_offset * 60] seconds. *)
Definition emit_commit (pf : Platform) (name email : string) (day : datetime)
    (minute_offset : Z) (b : builder) : result builder :=
  commit_time <- datetime_add day (timedelta 0 (minute_offset * 60) 0) ;;
  let msg := commit_message commit_time in
  let tstamp := timestamp pf commit_time in
  let blob_mark := mark b in
  let mark1 := mark b + 1 in
  let commit :=
    commit_lines pf name email mark1 tstamp msg (parent b) blob_mark in
  Ok {| parts := (parts b ++ [blob_part blob_mark; join LF commit])%list;
        mark := mark1 + 1;
        parent := Some (ParentMark mark1);
        count := count b + 1;
        history :=
          (history b ++
           [mk_entry day minute_offset commit_time blob_mark mark1
                     (parent b) commit])%list |}.

(** The two tests at the head of the outer loop's body and the draw of
    [commits_today]. *)
Definition decide_day (config : Config) (max_commits : Z) (day : datetime)
    (g : RandomState) : result (day_outcome * RandomState) :=
  if no_weekends config && (5 <=? weekday day) then Ok (SkippedWeekend, g)
  else
    '(roll, g1) <- randint 0 100 g ;;
    if frequency config <? roll then Ok (SkippedFrequency, g1)
    else
      '(commits_today, g2) <- randint 1 max_commits g1 ;;
      Ok (Commits commits_today, g2).

(** The body of [for day_offset in range(days_before + days_after)]. *)
Definition day_step (pf : Platform) (config : Config) (name email : string)
    (start : datetime) (max_commits : Z) (day_offset : Z) (s : loop_state)
    : result loop_state :=
  day <- datetime_add start (timedelta day_offset 0 0) ;;
  '(o, g) <- decide_day config max_commits day (st_random s) ;;
  b <- match o with
       | Commits commits_today =>
           for_each (range commits_today) (emit_commit pf name email day)
                    (st_builder s)
       | _ => Ok (st_builder s)
       end ;;
  Ok {| st_builder := b; st_random := g;
        days := (days s ++ [mk_day day_offset day (st_random s) o g])%list |}.

Definition start_date (config : Config) (curr_date : datetime)
    : result datetime :=
  datetime_sub (replace_hour_minute curr_date 20 0)
               (timedelta (days_before config) 0 0).

Definition initial_state (parent_commit : option string) (g : RandomState)
    : loop_state :=
  {| st_builder :=
       {| parts := []; mark := 1;
          parent := option_map ParentId parent_commit;
          count := 0; history := [] |};
     st_random := g;
     days := [] |}.

(** [build_fast_import_stream] up to its [return]: the state the two
    loops leave. *)
Definition build_state (pf : Platform) (config : Config) (name email : string)
    (curr_date : datetime) (parent_commit : option string) (g : RandomState)
    : result loop_state :=
  start <- start_date config curr_date ;;
  let max_commits := Z.max 1 (Z.min (max_commits config) 20) in
  for_each (range (days_before config + days_after config))
           (day_step pf config name email start max_commits)
           (initial_state parent_commit g).

(** The returned string.  The progress line printed when [count] is not
    0 is not part of it. *)
Definition build_fast_import_stream (pf : Platform) (config : Config)
    (name email : string) (curr_date : datetime)
    (parent_commit : option string) (g : RandomState) : result string :=
  s <- build_state pf config name email curr_date parent_commit g ;;
  Ok (join LF (parts (st_builder s))).

(** *** [validate_config] and [main] *)

Definition truthy (s : option string) : bool :=
  match s with
  | Some EmptyString | None => false
  | Some _ => true
  end.

Definition validate_config (config : Config) : result unit :=
  if days_before config <? 0 then
    Raise (SystemExit "Error: days_before must not be negative")
  else if days_after config <? 0 then
    Raise (SystemExit "Error: days_after must not be negative")
  else if negb ((0 <=? frequency config) && (frequency config <=? 100)) then
    Raise (SystemExit "Error: frequency must be between 0 and 100")
  else if negb ((1 <=? max_commits config) && (max_commits config <=? 20)) then
    Raise (SystemExit "Error: max_commits must be between 1 and 20")
  else if append config && negb (truthy (repository config)) then
    Raise (SystemExit "Error: --append requires --repository")
  else Ok tt.

(** A call of the [git] executable: [git(...)], [git_try(...)] and
    [git_with_input(..., input_data=...)]. *)
Inductive git_call : Type :=
| Git (args : list string)
| GitWithInput (args : list string) (input_data : string).

(** [push_to_remote], when the push succeeds; [append] only selects the
    advice printed when it does not. *)
Definition push_to_remote (force append : bool) : list git_call :=
  if force then [Git ["push"; "-u"; "origin"; "main"; "--force"]]
  else [Git ["push"; "-u"; "origin"; "main"]].

Definition or_else (a : option string) (b : string) : string :=
  match a with
  | Some (String c r) => String c r
  | _ => b
  end.

(** [main] from the resolution of the identity on, as the list of [git]
    calls it issues when every call succeeds.  What comes before (the
    parsing of the arguments, the set-up of the directory) and the three
    queries are inputs: [global_name] and [global_email] are what
    [git_config] returns, [head] what [get_head_commit] returns. *)
Definition main (pf : Platform) (config : Config) (curr_date : datetime)
    (global_name global_email : string) (head : option string)
    (g : RandomState) : result (list git_call) :=
  let name := or_else (user_name config) global_name in
  let email := or_else (user_email config) global_email in
  if String.eqb name EmptyString then
    Raise (SystemExit "Error: git user.name not configured. Use -un or run: git config --global user.name 'Your Name'")
  else if String.eqb email EmptyString then
    Raise (SystemExit "Error: git user.email not configured. Use -ue or run: git config --global user.email 'you@example.com'")
  else
    let set_name :=
      match user_name config with
      | Some (String c r) => [Git ["config"; "user.name"; String c r]]
      | _ => []
      end in
    let set_email :=
      match user_email config with
      | Some (String c r) => [Git ["config"; "user.email"; String c r]]
      | _ => []
      end in
    let parent_commit := if append config then head else None in
    stream <- build_fast_import_stream pf config name email curr_date
                                       parent_commit g ;;
    let import :=
      match stream with
      | EmptyString => []
      | _ => [GitWithInput ["fast-import"; "--quiet"] stream;
              Git ["checkout"; "main"]]
      end in
    let publish :=
      match repository config with
      | Some (String c r) =>
          ((if append config then []
            else [Git ["remote"; "add"; "origin"; String c r]]) ++
           [Git ["branch"; "-M"; "main"]] ++
           push_to_remote (force config) (append config))%list
      | _ => []
      end in
    Ok (set_name ++ set_email ++ import ++ publish)%list.

(** *** Reading the records of a run *)

(** The two parts one iteration appends to [parts]. *)
Definition render_entry (e : commit_entry) : list string :=
  [blob_part (ce_blob_mark e); join LF (ce_commit e)].

Fixpoint strip_prefix (p s : string) : option string :=
  match p, s with
  | EmptyString, _ => Some s
  | String c p', String c' s' =>
      if Ascii.eqb c c' then strip_prefix p' s' else None
  | String _ _, EmptyString => None
  end.

(** The lines of a record that start with the keyword [key], without it. *)
Definition field (key : string) (lines : list string) : list string :=
  flat_map (fun l => match strip_prefix key l with
                     | Some rest => [rest]
                     | None => []
                     end) lines.

(** The (day, minute offset) pairs of the iterations of the inner loop. *)
Definition slot (e : commit_entry) : datetime * Z :=
  (ce_day e, ce_minute_offset e).

Definition day_slots (d : day_entry) : list (datetime * Z) :=
  map (fun k => (de_day d, k)) (range (day_count (de_outcome d))).

(** Marks and parents along the history of a builder that started with
    parent [p] and next mark [m]. *)
Fixpoint chained (p : option parent_ref) (m : Z) (h : list commit_entry)
    : Prop :=
  match h with
  | [] => True
  | e :: h' =>
      ce_parent e = p /\ ce_blob_mark e = m /\ ce_mark e = m + 1 /\
      chained (Some (ParentMark (m + 1))) (m + 2) h'
  end.

(** The random source is handed from one day to the next. *)
Fixpoint random_chained (g : RandomState) (ds : list day_entry)
    (g' : RandomState) : Prop :=
  match ds with
  | [] => g = g'
  | d :: ds' => de_before d = g /\ random_chained (de_after d) ds' g'
  end.

(** An entry of the history holds what the loop body computes from the
    day, the minute offset, the marks and the parent. *)
Definition entry_ok (pf : Platform) (name email : string) (e : commit_entry)
    : Prop :=
  datetime_add (ce_day e) (timedelta 0 (ce_minute_offset e * 60) 0) =
    Ok (ce_time e) /\
  ce_commit e =
    commit_lines pf name email (ce_mark e) (timestamp pf (ce_time e))
                 (commit_message (ce_time e)) (ce_parent e) (ce_blob_mark e).

(** An entry of [days] holds the day at its offset and the decision
    taken for it. *)
Definition day_ok (config : Config) (start : datetime) (d : day_entry)
    : Prop :=
  datetime_add start (timedelta (de_offset d) 0 0) = Ok (de_day d) /\
  decide_day config (Z.max 1 (Z.min (max_commits config) 20)) (de_day d)
             (de_before d) = Ok (de_outcome d, de_after d).

(** What a completed run of the two loops leaves. *)
Record run_spec (pf : Platform) (config : Config) (name email : string)
    (curr_date : datetime) (parent_commit : option string) (g : RandomState)
    (start : datetime) (s : loop_state) : Prop := mk_run_spec {
  run_start : start_date config curr_date = Ok start;
  run_offsets :
    map de_offset (days s) = range (days_before config + days_after config);
  run_days : Forall (day_ok config start) (days s);
  run_random : random_chained g (days s) (st_random s);
  run_slots : map slot (history (st_builder s)) = flat_map day_slots (days s);
  run_entries : Forall (entry_ok pf name email) (history (st_builder s));
  run_parts :
    parts (st_builder s) = flat_map render_entry (history (st_builder s));
  run_count :
    count (st_builder s) = Z.of_nat (List.length (history (st_builder s)));
  run_mark : mark (st_builder s) = 1 + 2 * count (st_builder s);
  run_chained :
    chained (option_map ParentId parent_commit) 1 (history (st_builder s))
}.

Arguments run_start {pf config name email curr_date parent_commit g start s} _.
Arguments run_offsets {pf config name email curr_date parent_commit g start s} _.
Arguments run_days {pf config name email curr_date parent_commit g start s} _.
Arguments run_random {pf config name email curr_date parent_commit g start s} _.
Arguments run_slots {pf config name email curr_date parent_commit g start s} _.
Arguments run_entries {pf config name email curr_date parent_commit g start s} _.
Arguments run_parts {pf config name email curr_date parent_commit g start s} _.
Arguments run_count {pf config name email curr_date parent_commit g start s} _.
Arguments run_mark {pf config name email curr_date parent_commit g start s} _.
Arguments run_chained {pf config name email curr_date parent_commit g start s} _.

(** *** Auxiliary notions of the specification *)

(** The text a [from] line carries for a parent. *)
Definition parent_text (p : parent_ref) : string :=
  match p with
  | ParentMark m => (":" ++ str m)%string
  | ParentId sha => sha
  end.

(** The parent the next commit will get: the mark of the last entry of
    the history, or the initial parent when there is none. *)
Definition last_parent (p : option parent_ref) (h : list commit_entry)
    : option parent_ref :=
  last (map (fun e => Some (ParentMark (ce_mark e))) h) p.

Definition builder_ok (pf : Platform) (name email : string)
    (p0 : option parent_ref) (b : builder) : Prop :=
  parts b = flat_map render_entry (history b) /\
  count b = Z.of_nat (List.length (history b)) /\
  mark b = 1 + 2 * count b /\
  chained p0 1 (history b) /\
  parent b = last_parent p0 (history b) /\
  Forall (entry_ok pf name email) (history b).

(** The commits scheduled over a list of days. *)
Definition total_scheduled (ds : list day_entry) : Z :=
  fold_right (fun d acc => day_count (de_outcome d) + acc) 0 ds.

(** The instant of the commit of a slot: one minute per offset after the
    day's anchor. *)
Definition slot_instant (sl : datetime * Z) : Z :=
  instant (fst sl) + snd sl * 60000000.

(** *** Reading a message back *)

Definition digit_value (c : ascii) : option Z :=
  let n := Z.of_nat (nat_of_ascii c) in
  if (48 <=? n) && (n <=? 57) then Some (n - 48) else None.

(** A decimal number of exactly [width] digits at the head of [s], and
    the rest of [s]. *)
Fixpoint read_digits (width : nat) (acc : Z) (s : string)
    : option (Z * string) :=
  match width with
  | O => Some (acc, s)
  | S w =>
      match s with
      | String c s' =>
          match digit_value c with
          | Some d => read_digits w (acc * 10 + d) s'
          | None => None
          end
      | EmptyString => None
      end
  end.



End Contribute.

(** ** Concrete runs *)

Module Demo.

Import Contribute.
Local Open Scope string_scope.
Local Open Scope Z_scope.

(** A platform whose local time is UTC. *)
Definition utc : Platform :=
  {| tz_offset := "+0000";
     timestamp := fun dt => (toordinal dt - 719163) * 86400 + seconds_of_day dt |}.

(** The configuration of the repository's test [test_commits_generation]:
    [-nw -mc=3 -fr=100 -db=7 -da=0]. *)
Definition week_config : Config :=
  mk_config true 3 100 7 0 None None None false false.

(** Monday 9 November 2026, 12:34:56.000789. *)
Definition monday : datetime := mk_datetime 2026 11 9 12 34 56 789.

Definition dice : RandomState := mk_random (fun n => Z.of_nat n * 7 + 1) 0.

(** A random source whose every raw draw is 0. *)
Definition zeros : RandomState := mk_random (fun _ => 0) 0.

(** [-fr=0 -db=1]: a frequency of 0 percent over one day. *)
Definition never_config : Config :=
  mk_config false 10 0 1 0 None None None false false.

(** [-db=0 -da=0]: an empty range. *)
Definition empty_config : Config :=
  mk_config false 10 80 0 0 None None None false false.

(** [-mc=50], as if validation had been bypassed. *)
Definition greedy_config : Config :=
  mk_config false 50 100 3 0 None None None false false.

(** An empty range, with a remote to push to. *)
Definition publish_config : Config :=
  mk_config false 10 80 0 0 (Some "https://example.com/ann/demo.git")
            None None false false.

(** A random source whose every raw draw is 5. *)
Definition fives : RandomState := mk_random (fun _ => 5) 0.

(** The state a run leaves; the initial state if it raised. *)
Definition final_state (pf : Platform) (config : Config) (name email : string)
    (curr_date : datetime) (parent_commit : option string) (g : RandomState)
    : loop_state :=
  match build_state pf config name email curr_date parent_commit g with
  | Ok s => s
  | Raise _ => initial_state parent_commit g
  end.

Definition week_state : loop_state :=
  final_state utc week_config "Ann" "ann@example.com" monday None dice.

Definition append_state : loop_state :=
  final_state utc week_config "Ann" "ann@example.com" monday
              (Some "1f3c9a7e") dice.

Definition greedy_state : loop_state :=
  final_state utc greedy_config "Ann" "ann@example.com" monday None
              (mk_random (fun _ => 19) 0).

Definition never_state : loop_state :=
  final_state utc never_config "Ann" "ann@example.com" monday None zeros.

Definition skipped_state : loop_state :=
  final_state utc never_config "Ann" "ann@example.com" monday None fives.

End Demo.

(** ** Measures of a run *)

Module Measures.

Import Calendar Contribute.
Local Open Scope Z_scope.

(** The marks of a record, in the order the stream declares them. *)
Definition entry_marks (e : commit_entry) : list Z :=
  [ce_blob_mark e; ce_mark e].

(** [first, first + 1, ..., first + n - 1] *)
Definition count_from (first : Z) (n : nat) : list Z :=
  map (fun k => first + Z.of_nat k) (seq 0 n).


(** The draws one day takes from the random source. *)
Definition draws_of (o : day_outcome) : nat :=
  match o with
  | SkippedWeekend => 0
  | SkippedFrequency => 1
  | Commits _ => 2
  end.

Definition total_draws (ds : list day_entry) : nat :=
  fold_right (fun d acc => (draws_of (de_outcome d) + acc)%nat) 0%nat ds.

(** The days of a run that received commits. *)
Definition commit_days (ds : list day_entry) : list day_entry :=
  filter (fun d => 0 <? day_count (de_outcome d)) ds.

End Measures.

(** ** Strings of the directory names *)

Module Paths.

Import Text.

Definition chars (s : string) : list ascii := list_ascii_of_string s.
Definition text (l : list ascii) : string := string_of_list_ascii l.

Fixpoint drop_while (p : ascii -> bool) (l : list ascii) : list ascii :=
  match l with
  | [] => []
  | c :: l' => if p c then drop_while p l' else l
  end.

Fixpoint take_while (p : ascii -> bool) (l : list ascii) : list ascii :=
  match l with
  | [] => []
  | c :: l' => if p c then c :: take_while p l' else []
  end.

Fixpoint starts_with (p l : list ascii) : bool :=
  match p, l with
  | [], _ => true
  | a :: p', b :: l' => Ascii.eqb a b && starts_with p' l'
  | _ :: _, [] => false
  end.

Definition is_in (set : string) (c : ascii) : bool :=
  existsb (Ascii.eqb c) (chars set).

(** [s.rstrip(set)]: [s] without the characters of [set] at its end. *)
Definition rstrip (set s : string) : string :=
  text (rev (drop_while (is_in set) (rev (chars s)))).

(** [s.endswith(suffix)] *)
Definition endswith (s suffix : string) : bool :=
  starts_with (rev (chars suffix)) (rev (chars s)).

(** [s[:-n]] for a positive [n]: [s] without its last [n] characters,
    empty when [s] is shorter. *)
Definition drop_last (n : nat) (s : string) : string :=
  text (firstn (String.length s - n) (chars s)).

(** [s.rsplit(sep, 1)[-1]] for a separator of one character: what
    follows the last [sep], and [s] itself when it has none. *)
Definition rsplit_last (sep : ascii) (s : string) : string :=
  text (rev (take_while (fun c => negb (Ascii.eqb c sep)) (rev (chars s)))).

(** The directory name both [setup_append_mode] and [create_directory]
    compute from the repository URL:
    [name = repository.rstrip("/")], then without a final [.git], then
    [name.rsplit("/", 1)[-1]]. *)
Definition repository_name (repository : string) : string :=
  let name := rstrip "/" repository in
  let name := if endswith name ".git" then drop_last 4 name else name in
  rsplit_last "/" name.

(** [f"repository-{curr_date:%Y-%m-%d-%H-%M-%S}"] *)
Definition default_name (curr_date : datetime) : string :=
  ("repository-" ++ pad4 (year curr_date) ++ "-" ++ pad2 (month curr_date) ++
   "-" ++ pad2 (day curr_date) ++ "-" ++ pad2 (hour curr_date) ++
   "-" ++ pad2 (minute curr_date) ++ "-" ++ pad2 (second curr_date))%string.

(** A text without [/], and a text of [/] only. *)
Definition no_slash (s : string) : Prop := ~ In "/"%char (chars s).
Definition only_slashes (s : string) : Prop :=
  Forall (fun c => c = "/"%char) (chars s).

End Paths.

(** ** The process: [main] and the functions that call [git] *)

Module Process.

Import Text Contribute Paths.
Local Open Scope string_scope.
Local Open Scope Z_scope.

(** What the program does to the outside: a [subprocess.run] of [git]
    whose failure matters ([git], [git_try], [git_with_input] and the
    clone), one whose output is read ([git_config], [get_head_commit]),
    [os.mkdir] and [os.chdir]. *)
Inductive event : Type :=
| Run (c : git_call)
| Query (args : list string)
| Mkdir (name : string)
| Chdir (name : string).

(** How a run ends early: [sys.exit] with a message, [sys.exit] with a
    status, an exception of the builder that nothing catches, the
    [OSError] of a failed [os.mkdir] or [os.chdir]. *)
Inductive stop : Type :=
| Exited (message : string)
| ExitedWith (status : Z)
| Uncaught (e : exn)
| OSError (op : event).

Inductive outcome (A : Type) : Type :=
| Done (a : A)
| Stop (s : stop).

Arguments Done {A} a.
Arguments Stop {A} s.

(** The machine the program runs on.  [git_fails c] is [None] when the
    call returns 0, and otherwise its standard error, decoded and
    stripped ([None] inside when it is empty); [query args] is the
    return code of a query and its stripped standard output.  Every
    call and every query is issued at most once in a run, so an answer
    per call describes any behaviour of the machine.  The machine is
    taken to have [git] installed, to answer in UTF-8 and to print what
    it is told to: [subprocess.run] starts the program, [decode] and
    [print] do not raise. *)
Record World : Type := mk_world {
  path_exists : string -> bool;
  os_fails : event -> bool;
  git_fails : git_call -> option (option string);
  query : list string -> Z * string
}.

(** A computation that appends events to the log of those so far. *)
Definition proc (A : Type) : Type := list event -> list event * outcome A.

Definition ret {A} (a : A) : proc A := fun log => (log, Done a).

Definition halt {A} (s : stop) : proc A := fun log => (log, Stop s).

Definition pbind {A B} (m : proc A) (k : A -> proc B) : proc B :=
  fun log =>
    match m log with
    | (log', Done a) => k a log'
    | (log', Stop s) => (log', Stop s)
    end.

Notation "x <~ m ;; k" := (pbind m (fun x => k))
  (at level 61, m at next level, right associativity).
Notation "m ;;; k" := (pbind m (fun _ => k))
  (at level 61, right associativity).

(** An exception of the pure part, when nothing catches it. *)
Definition lift {A} (r : result A) : proc A :=
  match r with
  | Ok a => ret a
  | Raise (SystemExit message) => halt (Exited message)
  | Raise e => halt (Uncaught e)
  end.

(** [e.stderr.decode("utf-8").strip() if e.stderr else "Unknown error"] *)
Definition stderr_text (err : option string) : string :=
  match err with
  | Some t => t
  | None => "Unknown error"
  end.

Definition run_checked (w : World) (c : git_call) (prefix : string)
    : proc unit :=
  fun log =>
    match git_fails w c with
    | None => ((log ++ [Run c])%list, Done tt)
    | Some err =>
        ((log ++ [Run c])%list, Stop (Exited (prefix ++ stderr_text err)))
    end.

Definition git (w : World) (args : list string) : proc unit :=
  run_checked w (Git args) "Git error: ".

Definition git_with_input (w : World) (args : list string)
    (input_data : string) : proc unit :=
  run_checked w (GitWithInput args input_data) "Git error: ".

Definition git_try (w : World) (args : list string) : proc bool :=
  fun log =>
    ((log ++ [Run (Git args)])%list,
     Done (match git_fails w (Git args) with None => true | Some _ => false end)).

Definition git_config (w : World) (key : string) : proc string :=
  fun log =>
    ((log ++ [Query ["config"; "--global"; key]])%list,
     Done (snd (query w ["config"; "--global"; key]))).

Definition get_head_commit (w : World) : proc (option string) :=
  fun log =>
    ((log ++ [Query ["rev-parse"; "HEAD"]])%list,
     Done (let '(returncode, stdout) := query w ["rev-parse"; "HEAD"] in
           if returncode =? 0 then Some stdout else None)).

Definition os_call (w : World) (e : event) : proc unit :=
  fun log =>
    ((log ++ [e])%list, if os_fails w e then Stop (OSError e) else Done tt).

Definition setup_append_mode (w : World) (repository : string) : proc string :=
  let name := repository_name repository in
  run_checked w (Git ["clone"; repository; name]) "Clone failed: " ;;;
  os_call w (Chdir name) ;;;
  ret name.

(** The name [create_directory] chooses. *)
Definition create_name (repository : option string) (curr_date : datetime)
    : string :=
  match repository with
  | Some (String c r) => repository_name (String c r)
  | _ => default_name curr_date
  end.

Definition create_directory (w : World) (repository : option string)
    (curr_date : datetime) : proc string :=
  let name := create_name repository curr_date in
  if path_exists w name then
    halt (Exited ("Error: Directory '" ++ name ++
                  "' already exists. Remove it or use a different name."))
  else
    os_call w (Mkdir name) ;;;
    ret name.

Definition push_to_remote (w : World) (force append : bool) : proc unit :=
  if force then git w ["push"; "-u"; "origin"; "main"; "--force"]
  else
    pushed <~ git_try w ["push"; "-u"; "origin"; "main"] ;;
    if pushed then ret tt else halt (ExitedWith 1).

(** [main], from [validate_config] on; [config] is what [parse_args]
    returned and [curr_date] what [datetime.now()] does.  What is
    printed is left out. *)
Definition main (w : World) (pf : Platform) (config : Config)
    (curr_date : datetime) (g : RandomState) : proc unit :=
  lift (validate_config config) ;;;
  (if append config && truthy (repository config) then
     match repository config with
     | Some repository => setup_append_mode w repository
     | None => ret EmptyString
     end
   else
     directory <~ create_directory w (repository config) curr_date ;;
     os_call w (Chdir directory) ;;;
     git w ["init"; "-b"; "main"] ;;;
     ret directory) ;;;
  name <~ match user_name config with
          | Some (String c r) => ret (String c r)
          | _ => git_config w "user.name"
          end ;;
  email <~ match user_email config with
           | Some (String c r) => ret (String c r)
           | _ => git_config w "user.email"
           end ;;
  if String.eqb name EmptyString then
    halt (Exited "Error: git user.name not configured. Use -un or run: git config --global user.name 'Your Name'")
  else if String.eqb email EmptyString then
    halt (Exited "Error: git user.email not configured. Use -ue or run: git config --global user.email 'you@example.com'")
  else
    match user_name config with
    | Some (String c r) => git w ["config"; "user.name"; String c r]
    | _ => ret tt
    end ;;;
    match user_email config with
    | Some (String c r) => git w ["config"; "user.email"; String c r]
    | _ => ret tt
    end ;;;
    parent_commit <~ (if append config then get_head_commit w else ret None) ;;
    stream <~ lift (build_fast_import_stream pf config name email curr_date
                                             parent_commit g) ;;
    match stream with
    | EmptyString => ret tt
    | _ =>
        git_with_input w ["fast-import"; "--quiet"] stream ;;;
        git w ["checkout"; "main"]
    end ;;;
    match repository config with
    | Some (String c r) =>
        (if append config then ret tt
         else git w ["remote"; "add"; "origin"; String c r]) ;;;
        git w ["branch"; "-M"; "main"] ;;;
        push_to_remote w (force config) (append config)
    | _ => ret tt
    end.

(** The calls of [git] among the events. *)
Definition git_calls (log : list event) : list git_call :=
  flat_map (fun e => match e with Run c => [c] | _ => [] end) log.

(** An event that did what it was asked. *)
Definition succeeded (w : World) (e : event) : Prop :=
  match e with
  | Run c => git_fails w c = None
  | Query _ => True
  | Mkdir _ | Chdir _ => os_fails w e = false
  end.

(** A machine on which nothing fails and no directory is in the way. *)
Definition obliging (w : World) : Prop :=
  (forall name, path_exists w name = false) /\
  (forall e, os_fails w e = false) /\
  (forall c, git_fails w c = None).

(** The non-forced and the forced push. *)
Definition plain_push : git_call := Git ["push"; "-u"; "origin"; "main"].
Definition forced_push : git_call :=
  Git ["push"; "-u"; "origin"; "main"; "--force"].

(** A call that reaches a remote: [clone], [remote] or [push]. *)
Definition reaches_remote (e : event) : bool :=
  match e with
  | Run (Git (command :: _)) =>
      String.eqb command "clone" || String.eqb command "remote" ||
      String.eqb command "push"
  | _ => false
  end.

(** Every event a computation adds satisfies [P], and the value it
    returns satisfies [R]. *)
Definition yields {A} (P : event -> Prop) (R : A -> Prop) (m : proc A)
    : Prop :=
  forall log log' r, m log = (log', r) ->
    exists new, log' = (log ++ new)%list /\ Forall P new /\
                (forall a, r = Done a -> R a).

Definition emits {A} (P : event -> Prop) (m : proc A) : Prop :=
  yields P (fun _ => True) m.

(** A computation goes on to a next event only after the one before
    did what it was asked, and ends normally only when all did. *)
Definition fail_stop {A} (w : World) (m : proc A) : Prop :=
  forall log log' r, m log = (log', r) ->
    exists new, log' = (log ++ new)%list /\
      Forall (succeeded w) (removelast new) /\
      (forall a, r = Done a -> Forall (succeeded w) new).


(** The events [main] can add under a configuration. *)
Inductive allowed (pf : Platform) (config : Config) (curr_date : datetime)
    (g : RandomState) : event -> Prop :=
| allowed_clone url :
    append config = true -> repository config = Some url -> url <> EmptyString ->
    allowed pf config curr_date g
      (Run (Git ["clone"; url; repository_name url]))
| allowed_clone_chdir url :
    append config = true -> repository config = Some url -> url <> EmptyString ->
    allowed pf config curr_date g (Chdir (repository_name url))
| allowed_mkdir :
    append config && truthy (repository config) = false ->
    allowed pf config curr_date g (Mkdir (create_name (repository config) curr_date))
| allowed_chdir :
    append config && truthy (repository config) = false ->
    allowed pf config curr_date g (Chdir (create_name (repository config) curr_date))
| allowed_init :
    append config && truthy (repository config) = false ->
    allowed pf config curr_date g (Run (Git ["init"; "-b"; "main"]))
| allowed_query_name :
    truthy (user_name config) = false ->
    allowed pf config curr_date g (Query ["config"; "--global"; "user.name"])
| allowed_query_email :
    truthy (user_email config) = false ->
    allowed pf config curr_date g (Query ["config"; "--global"; "user.email"])
| allowed_set_name name :
    user_name config = Some name -> name <> EmptyString ->
    allowed pf config curr_date g (Run (Git ["config"; "user.name"; name]))
| allowed_set_email email :
    user_email config = Some email -> email <> EmptyString ->
    allowed pf config curr_date g (Run (Git ["config"; "user.email"; email]))
| allowed_rev_parse :
    append config = true ->
    allowed pf config curr_date g (Query ["rev-parse"; "HEAD"])
| allowed_import name email parent_commit stream :
    build_fast_import_stream pf config name email curr_date parent_commit g =
      Ok stream ->
    stream <> EmptyString ->
    allowed pf config curr_date g
      (Run (GitWithInput ["fast-import"; "--quiet"] stream))
| allowed_checkout :
    allowed pf config curr_date g (Run (Git ["checkout"; "main"]))
| allowed_remote url :
    append config = false -> repository config = Some url -> url <> EmptyString ->
    allowed pf config curr_date g
      (Run (Git ["remote"; "add"; "origin"; url]))
| allowed_branch :
    truthy (repository config) = true ->
    allowed pf config curr_date g (Run (Git ["branch"; "-M"; "main"]))
| allowed_plain_push :
    truthy (repository config) = true -> force config = false ->
    allowed pf config curr_date g (Run plain_push)
| allowed_forced_push :
    truthy (repository config) = true -> force config = true ->
    allowed pf config curr_date g (Run forced_push).

(** The first call of [git]: the clone in append mode, [git init]
    otherwise. *)
Definition setup_call (config : Config) : git_call :=
  match append config, repository config with
  | true, Some (String c r) =>
      Git ["clone"; String c r; repository_name (String c r)]
  | _, _ => Git ["init"; "-b"; "main"]
  end.

(** What [get_head_commit] returns on a machine. *)
Definition head_of (w : World) : option string :=
  let '(returncode, stdout) := query w ["rev-parse"; "HEAD"] in
  if returncode =? 0 then Some stdout else None.



Definition is_clone (c : git_call) : bool :=
  match c with
  | Git (command :: _) => String.eqb command "clone"
  | _ => false
  end.

(** Whether [os.chdir] has been called. *)
Definition has_chdir (log : list event) : bool :=
  existsb (fun e => match e with Chdir _ => true | _ => false end) log.

(** Every call of [git] but the clone, and every query, comes after an
    [os.chdir]; [entered] tells whether one came before the events. *)
Fixpoint in_directory (entered : bool) (log : list event) : bool :=
  match log with
  | [] => true
  | Run c :: log' => (entered || is_clone c) && in_directory entered log'
  | Query _ :: log' => entered && in_directory entered log'
  | Chdir _ :: log' => in_directory true log'
  | Mkdir _ :: log' => in_directory entered log'
  end.

(** A computation that keeps [in_directory]: started after an
    [os.chdir] when [pre] is set, it has called one when it returns and
    [post] is set. *)
Definition tracks {A} (pre post : bool) (m : proc A) : Prop :=
  forall log log' r, m log = (log', r) ->
    (pre = true -> has_chdir log = true) ->
    exists new, log' = (log ++ new)%list /\
      in_directory (has_chdir log) new = true /\
      (forall a, r = Done a -> post = true -> has_chdir log' = true).

End Process.

(** ** Concrete machines and configurations *)

Module Samples.

Import Contribute Paths Process Demo.
Local Open Scope string_scope.
Local Open Scope Z_scope.

(** The answers of [git config --global] and [git rev-parse HEAD]. *)
Definition answers (args : list string) : Z * string :=
  match args with
  | [_; _; key] =>
      if String.eqb key "user.name" then (0, "Ann")
      else (0, "ann@example.com")
  | _ => (0, "1f3c9a7e")
  end.

(** A machine on which nothing fails. *)
Definition calm : World :=
  mk_world (fun _ => false) (fun _ => false) (fun _ => None) answers.

(** A machine whose remote rejects every push. *)
Definition rejecting : World :=
  mk_world (fun _ => false) (fun _ => false)
           (fun c => match c with
                     | Git (String "p" _ :: _) => Some (Some "! [rejected]")
                     | _ => None
                     end)
           answers.

(** A machine on which every directory name is taken. *)
Definition crowded : World :=
  mk_world (fun _ => true) (fun _ => false) (fun _ => None) answers.

Definition demo_url : string := "https://example.com/ann/demo.git".

(** [-nw -mc=3 -fr=100 -db=7 -da=0 -r=<url>] *)
Definition remote_config : Config :=
  mk_config true 3 100 7 0 (Some demo_url) None None false false.

(** The same with [--append]. *)
Definition append_config : Config :=
  mk_config true 3 100 7 0 (Some demo_url) None None false true.


(** A frequency of -1, as if validation had been bypassed. *)
Definition negative_config : Config :=
  mk_config false 10 (-1) 30 0 None None None false false.

Definition negative_state : loop_state :=
  final_state utc negative_config "Ann" "ann@example.com" monday None zeros.

(** The stream of the week before [monday] under [week_config]. *)
Definition week_stream : string :=
  match build_fast_import_stream utc week_config "Ann" "ann@example.com"
                                 monday None dice with
  | Ok stream => stream
  | Raise _ => EmptyString
  end.

(** The stream of the week before [monday] under [remote_config]. *)
Definition remote_stream : string :=
  match build_fast_import_stream utc remote_config "Ann" "ann@example.com"
                                 monday None dice with
  | Ok stream => stream
  | Raise _ => EmptyString
  end.

(** Monday 9 November 2026, 12:34:56 sharp. *)
Definition monday_sharp : datetime := mk_datetime 2026 11 9 12 34 56 0.

End Samples.

(** * Properties *)

Import Calendar Text Contribute Demo.

(** ** Properties of the calendar *)

(** A boolean check run over [0 .. n-1] holds at every integer of the
    range. *)
Lemma Z_range_forallb (P : Z -> bool) (n : nat) :
  forallb P (map Z.of_nat (seq 0 n)) = true ->
  forall z, 0 <= z < Z.of_nat n -> P z = true.
Proof.
  intros H z Hz.
  rewrite forallb_forall in H. apply H.
  apply in_map_iff. exists (Z.to_nat z). split; [lia|].
  apply in_seq. lia.
Qed.

(** [month_day] is checked at each of the 365 or 366 days of a year. *)
Lemma month_day_ok_all leap n :
  0 <= n < 365 + b2z leap -> month_day_ok leap n = true.
Proof.
  intros H. destruct leap.
  - apply (Z_range_forallb (month_day_ok true) 366); [vm_compute; reflexivity | simpl in *; lia].
  - apply (Z_range_forallb (month_day_ok false) 365); [vm_compute; reflexivity | simpl in *; lia].
Qed.

Lemma is_leap_true_iff y :
  is_leap y = true <-> (y mod 4 = 0 /\ (y mod 100 <> 0 \/ y mod 400 = 0)).
Proof.
  unfold is_leap.
  rewrite andb_true_iff, orb_true_iff, negb_true_iff, !Z.eqb_eq, Z.eqb_neq.
  tauto.
Qed.

Lemma year_split_intro n :
  let n400 := n / DI400Y in
  let a := n mod DI400Y in
  let n100 := a / DI100Y in
  let b := a mod DI100Y in
  let n4 := b / DI4Y in
  let c := b mod DI4Y in
  let n1 := c / 365 in
  let r := c mod 365 in
  year_split n n400 n100 n4 n1 r.
Proof.
  unfold DI400Y, DI100Y, DI4Y. cbv zeta.
  split; Z.div_mod_to_equations; lia.
Qed.

Lemma days_before_year_split q n100 n4 n1 :
  0 <= n100 <= 3 -> 0 <= n4 <= 24 -> 0 <= n1 <= 3 ->
  days_before_year (q * 400 + 1 + (n100 * 100 + n4 * 4 + n1)) =
  146097 * q + 36524 * n100 + 1461 * n4 + 365 * n1.
Proof.
  intros. unfold days_before_year.
  Z.div_mod_to_equations. lia.
Qed.

Lemma is_leap_split q n100 n4 n1 :
  0 <= n100 <= 3 -> 0 <= n4 <= 24 -> 0 <= n1 <= 3 ->
  is_leap (q * 400 + 1 + (n100 * 100 + n4 * 4 + n1)) =
  (n1 =? 3) && (negb (n4 =? 24) || (n100 =? 3)).
Proof.
  intros. apply eq_true_iff_eq.
  rewrite is_leap_true_iff.
  rewrite andb_true_iff, orb_true_iff, negb_true_iff, !Z.eqb_eq, Z.eqb_neq.
  Z.div_mod_to_equations. lia.
Qed.

Lemma days_in_month_eq y m :
  days_in_month y m = DAYS_IN_MONTH m + b2z ((m =? 2) && is_leap y).
Proof.
  unfold days_in_month. destruct ((m =? 2) && is_leap y) eqn:E; simpl; [|lia].
  apply andb_true_iff in E. destruct E as [E _]. apply Z.eqb_eq in E. subst. reflexivity.
Qed.

(** [ord2ymd] returns a month and a day of that month, and [ymd2ord]
    takes them back to the ordinal. *)
Lemma ord2ymd_spec ordinal :
  let '(y, m, d) := ord2ymd ordinal in
  1 <= m <= 12 /\ 1 <= d <= days_in_month y m /\ ymd2ord y m d = ordinal.
Proof.
  unfold ord2ymd.
  pose proof (year_split_intro (ordinal - 1)) as S. cbv zeta in S.
  set (n400 := (ordinal - 1) / DI400Y) in *.
  set (a := (ordinal - 1) mod DI400Y) in *.
  set (n100 := a / DI100Y) in *.
  set (b := a mod DI100Y) in *.
  set (n4 := b / DI4Y) in *.
  set (c := b mod DI4Y) in *.
  set (n1 := c / 365) in *.
  set (r := c mod 365) in *.
  clearbody n400 n100 n4 n1 r. clear a b c.
  destruct S as [Heq H100 H4 H1 Hr L100 L4 L400].
  destruct ((n1 =? 4) || (n100 =? 4)) eqn:E.
  - (* the last day of a leap year *)
    assert (Hy : n400 * 400 + 1 + (n100 * 100 + n4 * 4 + n1) - 1 =
                 n400 * 400 + 1 + (n100 * 100 + n4 * 4 + n1 - 1)) by lia.
    rewrite Hy. clear Hy.
    apply orb_true_iff in E. rewrite !Z.eqb_eq in E.
    assert (L : is_leap (n400 * 400 + 1 + (n100 * 100 + n4 * 4 + n1 - 1)) = true).
    { apply is_leap_true_iff. Z.div_mod_to_equations. lia. }
    unfold ymd2ord, days_before_month, days_in_month. rewrite L. simpl.
    unfold days_before_year. split; [lia|]. split; [lia|].
    Z.div_mod_to_equations. lia.
  - apply orb_false_iff in E. rewrite !Z.eqb_neq in E.
    assert (B100 : 0 <= n100 <= 3) by lia.
    assert (B1 : 0 <= n1 <= 3) by lia.
    set (lp := (n1 =? 3) && (negb (n4 =? 24) || (n100 =? 3))).
    assert (Hr' : 0 <= r < 365 + b2z lp) by (destruct lp; simpl; lia).
    pose proof (month_day_ok_all lp r Hr') as M.
    unfold month_day_ok in M.
    destruct (month_day lp r) as [m d].
    rewrite !andb_true_iff in M. rewrite !Z.leb_le, Z.eqb_eq in M.
    rewrite days_in_month_eq. unfold ymd2ord, days_before_month.
    rewrite is_leap_split by lia. fold lp.
    rewrite days_before_year_split by lia.
    lia.
Qed.

Lemma days_before_year_succ y :
  days_before_year (y + 1) = days_before_year y + 365 + b2z (is_leap y).
Proof.
  unfold days_before_year.
  destruct (is_leap y) eqn:L.
  - apply is_leap_true_iff in L. simpl. Z.div_mod_to_equations. lia.
  - assert (N : ~ (y mod 4 = 0 /\ (y mod 100 <> 0 \/ y mod 400 = 0))).
    { rewrite <- is_leap_true_iff. congruence. }
    simpl. Z.div_mod_to_equations. lia.
Qed.

Lemma days_before_year_mono y1 y2 :
  y1 <= y2 -> days_before_year y1 <= days_before_year y2.
Proof.
  unfold days_before_year. intros. Z.div_mod_to_equations. lia.
Qed.

Ltac cal_simpl :=
  cbv [DAYS_IN_MONTH DAYS_BEFORE_MONTH b2z andb Z.eqb Z.ltb Z.compare
       Pos.compare Pos.compare_cont Pos.eqb] in *.

Ltac month_cases m :=
  let H := fresh in
  assert (H : m = 1 \/ m = 2 \/ m = 3 \/ m = 4 \/ m = 5 \/ m = 6 \/
              m = 7 \/ m = 8 \/ m = 9 \/ m = 10 \/ m = 11 \/ m = 12) by lia;
  repeat (destruct H as [H | H]; [subst m | ]); [.. | subst m].

Lemma year_day_bounds y m d :
  1 <= m <= 12 -> 1 <= d <= days_in_month y m ->
  1 <= days_before_month y m + d <= 365 + b2z (is_leap y).
Proof.
  intros Hm Hd. rewrite days_in_month_eq in Hd. unfold days_before_month.
  month_cases m; destruct (is_leap y); cal_simpl; lia.
Qed.

Lemma year_day_before_later_month y m1 d m2 :
  1 <= m1 -> m1 < m2 -> m2 <= 12 -> 1 <= d <= days_in_month y m1 ->
  days_before_month y m1 + d <= days_before_month y m2.
Proof.
  intros H1 H2 H3 Hd. rewrite days_in_month_eq in Hd. unfold days_before_month.
  month_cases m1; month_cases m2; try lia; destruct (is_leap y); cal_simpl; lia.
Qed.

(** The ordinals of the dates of the years 1..9999 are 1..MAXORDINAL. *)
Lemma ymd2ord_range y m d :
  valid_date y m d -> 1 <= ymd2ord y m d <= MAXORDINAL.
Proof.
  unfold valid_date, MINYEAR, MAXYEAR, MAXORDINAL, ymd2ord.
  intros (Hy & Hm & Hd).
  pose proof (year_day_bounds y m d Hm Hd) as B.
  pose proof (days_before_year_succ y) as S.
  pose proof (days_before_year_mono 1 y ltac:(lia)) as L1.
  pose proof (days_before_year_mono (y + 1) 10000 ltac:(lia)) as L2.
  change (days_before_year 1) with 0 in L1.
  change (days_before_year 10000) with 3652059 in L2.
  lia.
Qed.

(** ... and [ord2ymd] maps 1..MAXORDINAL into those years. *)
Lemma ord2ymd_valid ordinal :
  1 <= ordinal <= MAXORDINAL ->
  let '(y, m, d) := ord2ymd ordinal in valid_date y m d.
Proof.
  intros Ho. pose proof (ord2ymd_spec ordinal) as S.
  destruct (ord2ymd ordinal) as [[y m] d].
  destruct S as (Hm & Hd & E).
  unfold valid_date, MINYEAR, MAXYEAR. repeat split; try lia.
  - destruct (Z_lt_le_dec y 1) as [L|L]; [exfalso|lia].
    pose proof (year_day_bounds y m d Hm Hd) as B.
    pose proof (days_before_year_succ y) as S.
    pose proof (days_before_year_mono (y + 1) 1 ltac:(lia)) as L1.
    change (days_before_year 1) with 0 in L1.
    unfold ymd2ord in E. lia.
  - destruct (Z_lt_le_dec 9999 y) as [L|L]; [exfalso|lia].
    pose proof (year_day_bounds y m d Hm Hd) as B.
    pose proof (days_before_year_mono 10000 y ltac:(lia)) as L1.
    change (days_before_year 10000) with 3652059 in L1.
    unfold ymd2ord, MAXORDINAL in *. lia.
Qed.

(** [ymd2ord] is strictly increasing along the calendar. *)
Lemma ymd2ord_le_of_date_le y1 m1 d1 y2 m2 d2 :
  1 <= m1 <= 12 -> 1 <= d1 <= days_in_month y1 m1 ->
  1 <= m2 <= 12 -> 1 <= d2 <= days_in_month y2 m2 ->
  date_lt (y1, m1, d1) (y2, m2, d2) ->
  ymd2ord y1 m1 d1 < ymd2ord y2 m2 d2.
Proof.
  intros Hm1 Hd1 Hm2 Hd2 [Hy | [-> [Hm | [-> Hd]]]]; unfold ymd2ord.
  - pose proof (year_day_bounds y1 m1 d1 Hm1 Hd1).
    pose proof (year_day_bounds y2 m2 d2 Hm2 Hd2).
    pose proof (days_before_year_succ y1).
    pose proof (days_before_year_mono (y1 + 1) y2 ltac:(lia)). lia.
  - pose proof (year_day_before_later_month y2 m1 d1 m2
                  ltac:(lia) Hm ltac:(lia) Hd1). lia.
  - lia.
Qed.

Lemma date_lt_of_ymd2ord_lt y1 m1 d1 y2 m2 d2 :
  1 <= m1 <= 12 -> 1 <= d1 <= days_in_month y1 m1 ->
  1 <= m2 <= 12 -> 1 <= d2 <= days_in_month y2 m2 ->
  ymd2ord y1 m1 d1 < ymd2ord y2 m2 d2 ->
  date_lt (y1, m1, d1) (y2, m2, d2).
Proof.
  intros Hm1 Hd1 Hm2 Hd2 L.
  destruct (Z_lt_le_dec y1 y2) as [Hy|Hy]; [left; exact Hy|].
  destruct (Z.eq_dec y1 y2) as [->|Ny].
  - right. split; [reflexivity|].
    destruct (Z_lt_le_dec m1 m2) as [Hm|Hm]; [left; exact Hm|].
    destruct (Z.eq_dec m1 m2) as [->|Nm].
    + right. split; [reflexivity|]. unfold ymd2ord in *. lia.
    + exfalso.
      pose proof (ymd2ord_le_of_date_le y2 m2 d2 y2 m1 d1 Hm2 Hd2 Hm1 Hd1) as M.
      simpl in M. lia.
  - exfalso.
    pose proof (ymd2ord_le_of_date_le y2 m2 d2 y1 m1 d1 Hm2 Hd2 Hm1 Hd1) as M.
    simpl in M. lia.
Qed.

Lemma ymd2ord_inj y1 m1 d1 y2 m2 d2 :
  1 <= m1 <= 12 -> 1 <= d1 <= days_in_month y1 m1 ->
  1 <= m2 <= 12 -> 1 <= d2 <= days_in_month y2 m2 ->
  ymd2ord y1 m1 d1 = ymd2ord y2 m2 d2 ->
  (y1, m1, d1) = (y2, m2, d2).
Proof.
  intros Hm1 Hd1 Hm2 Hd2 E.
  assert (T : date_lt (y1, m1, d1) (y2, m2, d2) \/ (y1, m1, d1) = (y2, m2, d2) \/
              date_lt (y2, m2, d2) (y1, m1, d1)).
  { simpl.
    destruct (Z.lt_total y1 y2) as [?|[->|?]]; [tauto| |tauto].
    destruct (Z.lt_total m1 m2) as [?|[->|?]]; [tauto| |tauto].
    destruct (Z.lt_total d1 d2) as [?|[->|?]]; tauto. }
  destruct T as [T|[T|T]]; [exfalso|exact T|exfalso].
  - apply ymd2ord_le_of_date_le in T; try assumption. lia.
  - apply ymd2ord_le_of_date_le in T; try assumption. lia.
Qed.

Lemma ord2ymd_ymd2ord y m d :
  1 <= m <= 12 -> 1 <= d <= days_in_month y m ->
  ord2ymd (ymd2ord y m d) = (y, m, d).
Proof.
  intros Hm Hd. pose proof (ord2ymd_spec (ymd2ord y m d)) as S.
  destruct (ord2ymd (ymd2ord y m d)) as [[y' m'] d'].
  destruct S as (Hm' & Hd' & E).
  apply ymd2ord_inj; assumption.
Qed.

Lemma ord2ymd_mono n1 n2 :
  n1 < n2 -> date_lt (ord2ymd n1) (ord2ymd n2).
Proof.
  intros L.
  pose proof (ord2ymd_spec n1) as S1. pose proof (ord2ymd_spec n2) as S2.
  destruct (ord2ymd n1) as [[y1 m1] d1]. destruct (ord2ymd n2) as [[y2 m2] d2].
  destruct S1 as (Hm1 & Hd1 & E1). destruct S2 as (Hm2 & Hd2 & E2).
  apply date_lt_of_ymd2ord_lt; try assumption. lia.
Qed.

(** ** Properties of the datetime arithmetic *)

(** The constructor normalises and keeps the length. *)
Lemma timedelta_normal d s us :
  let td := timedelta d s us in
  0 <= td_seconds td < 86400 /\ 0 <= td_microseconds td < 1000000 /\
  total_microseconds td = (d * 86400 + s) * 1000000 + us.
Proof.
  unfold timedelta, total_microseconds. cbn [td_days td_seconds td_microseconds].
  Z.div_mod_to_equations. lia.
Qed.

Lemma bind_ok {A B} (r : result A) (k : A -> result B) b :
  bind r k = Ok b -> exists a, r = Ok a /\ k a = Ok b.
Proof. destruct r; simpl; [eauto | discriminate]. Qed.

(** What a successful addition returns. *)
Lemma datetime_add_inv dt td dt' :
  datetime_add dt td = Ok dt' ->
  let delta := timedelta (toordinal dt + td_days td)
                 (seconds_of_day dt + td_seconds td)
                 (microsecond dt + td_microseconds td) in
  1 <= td_days delta <= MAXORDINAL /\
  (year dt', month dt', day dt') = ord2ymd (td_days delta) /\
  toordinal dt' = td_days delta /\
  hour dt' = td_seconds delta / 3600 /\
  minute dt' = td_seconds delta mod 3600 / 60 /\
  second dt' = td_seconds delta mod 3600 mod 60 /\
  microsecond dt' = td_microseconds delta.
Proof.
  unfold datetime_add, seconds_of_day. intros H. cbv zeta in *.
  set (delta := timedelta _ _ _) in *. clearbody delta.
  destruct ((0 <? td_days delta) && (td_days delta <=? MAXORDINAL)) eqn:E;
    [|discriminate].
  apply andb_true_iff in E. destruct E as [E1 E2].
  apply Z.ltb_lt in E1. apply Z.leb_le in E2.
  pose proof (ord2ymd_spec (td_days delta)) as S.
  destruct (ord2ymd (td_days delta)) as [[y m] d].
  injection H as <-. cbn. unfold toordinal. cbn.
  repeat split; try lia; tauto.
Qed.

(** Every datetime an addition returns is one the constructor accepts,
    whatever the operand. *)
Lemma datetime_add_valid dt td dt' :
  datetime_add dt td = Ok dt' -> valid_datetime dt'.
Proof.
  intros H. apply datetime_add_inv in H. cbv zeta in H.
  set (delta := timedelta _ _ _) in H.
  destruct H as (R & E & _ & Hh & Hm & Hs & Hu).
  pose proof (timedelta_normal (toordinal dt + td_days td)
                (seconds_of_day dt + td_seconds td)
                (microsecond dt + td_microseconds td)) as N.
  cbv zeta in N. fold delta in N. destruct N as (Ns & Nu & _).
  pose proof (ord2ymd_valid _ R) as V. rewrite <- E in V.
  unfold valid_datetime. split; [exact V|].
  rewrite Hh, Hm, Hs, Hu. Z.div_mod_to_equations. lia.
Qed.

(** Addition is addition on the time line. *)
Lemma datetime_add_instant dt td dt' :
  datetime_add dt td = Ok dt' ->
  instant dt' = instant dt + total_microseconds td.
Proof.
  intros H. apply datetime_add_inv in H. cbv zeta in H.
  set (delta := timedelta _ _ _) in H.
  destruct H as (R & E & Ho & Hh & Hm & Hs & Hu).
  pose proof (timedelta_normal (toordinal dt + td_days td)
                (seconds_of_day dt + td_seconds td)
                (microsecond dt + td_microseconds td)) as N.
  cbv zeta in N. fold delta in N. destruct N as (Ns & Nu & Nt).
  unfold instant at 1. unfold seconds_of_day at 1.
  rewrite Ho, Hh, Hm, Hs, Hu.
  unfold total_microseconds in *. unfold instant.
  Z.div_mod_to_equations. lia.
Qed.


(** ** The builder along the two loops *)

Lemma last_cons_default {A} (l : list A) : forall y d d',
  last (y :: l) d = last (y :: l) d'.
Proof.
  induction l as [|z l IH]; intros y d d'; [reflexivity|].
  change (last (z :: l) d = last (z :: l) d'). apply IH.
Qed.

Lemma last_parent_cons p e h :
  last_parent p (e :: h) = last_parent (Some (ParentMark (ce_mark e))) h.
Proof.
  unfold last_parent. cbn [map].
  destruct (map (fun e0 => Some (ParentMark (ce_mark e0))) h) as [|y l];
    [reflexivity|].
  change (last (y :: l) p = last (y :: l) (Some (ParentMark (ce_mark e)))).
  apply last_cons_default.
Qed.

Lemma last_parent_snoc p h e :
  last_parent p (h ++ [e]) = Some (ParentMark (ce_mark e)).
Proof.
  unfold last_parent. rewrite map_app. cbn [map]. apply last_last.
Qed.

Lemma chained_snoc p m h e :
  chained p m h ->
  ce_parent e = last_parent p h ->
  ce_blob_mark e = m + 2 * Z.of_nat (List.length h) ->
  ce_mark e = m + 2 * Z.of_nat (List.length h) + 1 ->
  chained p m (h ++ [e]).
Proof.
  revert p m. induction h as [|e0 h IH]; intros p m C Hp Hb Hm.
  - cbn in *. repeat split; try assumption; lia.
  - cbn [chained app] in *. destruct C as (C1 & C2 & C3 & C4).
    repeat split; try assumption.
    apply IH; try assumption.
    + rewrite Hp, last_parent_cons, C3. reflexivity.
    + rewrite Hb. cbn [List.length]. lia.
    + rewrite Hm. cbn [List.length]. lia.
Qed.

(** One iteration of the inner loop keeps [builder_ok] and adds one
    entry, for the slot of the iteration. *)
Lemma emit_commit_ok pf name email p0 day k b b' :
  emit_commit pf name email day k b = Ok b' ->
  builder_ok pf name email p0 b ->
  builder_ok pf name email p0 b' /\
  exists e, history b' = history b ++ [e] /\ slot e = (day, k).
Proof.
  unfold emit_commit. intros H (Ip & Ic & Im & Ich & Ipa & Ie).
  apply bind_ok in H. destruct H as (t & Ht & H). injection H as <-.
  cbn [parts mark parent count history]. split.
  - unfold builder_ok. cbn [parts mark parent count history].
    rewrite flat_map_app, Ip. cbn [flat_map render_entry ce_blob_mark ce_commit].
    rewrite app_nil_r, length_app. cbn [List.length].
    repeat split; try lia.
    + apply chained_snoc; cbn [ce_parent ce_blob_mark ce_mark]; try assumption; lia.
    + rewrite last_parent_snoc. reflexivity.
    + apply Forall_app. split; [assumption|]. constructor; [|constructor].
      split; cbn; [assumption|reflexivity].
  - eexists. split; reflexivity.
Qed.

Lemma emit_loop_ok pf name email p0 day ks : forall b b',
  for_each ks (emit_commit pf name email day) b = Ok b' ->
  builder_ok pf name email p0 b ->
  builder_ok pf name email p0 b' /\
  exists h, history b' = history b ++ h /\ map slot h = map (pair day) ks.
Proof.
  induction ks as [|k ks IH]; intros b b' H I.
  - injection H as <-. split; [assumption|]. exists []. rewrite app_nil_r. auto.
  - cbn [for_each] in H. apply bind_ok in H. destruct H as (b1 & H1 & H2).
    destruct (emit_commit_ok _ _ _ _ _ _ _ _ H1 I) as (I1 & e & He & Hs).
    destruct (IH _ _ H2 I1) as (I2 & h & Hh & Hm).
    split; [assumption|]. exists (e :: h). split.
    + rewrite Hh, He, <- app_assoc. reflexivity.
    + cbn [map]. rewrite Hs, Hm. reflexivity.
Qed.

(** One iteration of the outer loop adds one day to [days] and the
    entries of its slots to the history. *)
Lemma day_step_ok pf config name email p0 start off s s' :
  day_step pf config name email start
           (Z.max 1 (Z.min (max_commits config) 20)) off s = Ok s' ->
  builder_ok pf name email p0 (st_builder s) ->
  builder_ok pf name email p0 (st_builder s') /\
  exists d h,
    days s' = days s ++ [d] /\ de_offset d = off /\ day_ok config start d /\
    de_before d = st_random s /\ de_after d = st_random s' /\
    history (st_builder s') = history (st_builder s) ++ h /\
    map slot h = day_slots d.
Proof.
  unfold day_step. intros H I.
  apply bind_ok in H. destruct H as (day & Hday & H).
  apply bind_ok in H. destruct H as ([o g] & Hdec & H).
  apply bind_ok in H. destruct H as (b & Hb & H). injection H as <-.
  cbn [st_builder st_random days].
  assert (B : builder_ok pf name email p0 b /\
              exists h, history b = history (st_builder s) ++ h /\
                        map slot h = map (pair day) (range (day_count o))).
  { destruct o as [| |n]; cbn [day_count].
    - injection Hb as <-. split; [assumption|]. exists []. rewrite app_nil_r. auto.
    - injection Hb as <-. split; [assumption|]. exists []. rewrite app_nil_r. auto.
    - eapply emit_loop_ok; eassumption. }
  destruct B as (Ib & h & Hh & Hs). split; [assumption|].
  exists (mk_day off day (st_random s) o g), h.
  unfold day_ok, day_slots. cbn [de_offset de_day de_before de_outcome de_after].
  repeat split; assumption.
Qed.

Lemma day_loop_ok pf config name email p0 start offs : forall s s',
  for_each offs (day_step pf config name email start
                   (Z.max 1 (Z.min (max_commits config) 20))) s = Ok s' ->
  builder_ok pf name email p0 (st_builder s) ->
  builder_ok pf name email p0 (st_builder s') /\
  exists ds h,
    days s' = days s ++ ds /\ map de_offset ds = offs /\
    Forall (day_ok config start) ds /\
    random_chained (st_random s) ds (st_random s') /\
    history (st_builder s') = history (st_builder s) ++ h /\
    map slot h = flat_map day_slots ds.
Proof.
  induction offs as [|off offs IH]; intros s s' H I.
  - injection H as <-. split; [assumption|]. exists [], [].
    rewrite !app_nil_r. cbn. repeat split; auto.
  - cbn [for_each] in H. apply bind_ok in H. destruct H as (s1 & H1 & H2).
    destruct (day_step_ok _ _ _ _ _ _ _ _ _ H1 I)
      as (I1 & d & h & Hd & Ho & Hok & Hb & Ha & Hh & Hs).
    destruct (IH _ _ H2 I1) as (I2 & ds & h' & Hd' & Ho' & Hok' & Hr' & Hh' & Hs').
    split; [assumption|]. exists (d :: ds), (h ++ h').
    repeat split.
    + rewrite Hd', Hd, <- app_assoc. reflexivity.
    + cbn [map]. rewrite Ho, Ho'. reflexivity.
    + constructor; assumption.
    + assumption.
    + rewrite Ha. assumption.
    + rewrite Hh', Hh, <- app_assoc. reflexivity.
    + cbn [flat_map]. rewrite map_app, Hs, Hs'. reflexivity.
Qed.

(** A completed run satisfies [run_spec]. *)
Lemma build_state_spec {pf config name email curr_date parent_commit g s} :
  build_state pf config name email curr_date parent_commit g = Ok s ->
  exists start,
    run_spec pf config name email curr_date parent_commit g start s /\
    parent (st_builder s) =
      last_parent (option_map ParentId parent_commit) (history (st_builder s)).
Proof.
  unfold build_state. intros H.
  apply bind_ok in H. destruct H as (start & Hstart & H).
  assert (I0 : builder_ok pf name email (option_map ParentId parent_commit)
                 (st_builder (initial_state parent_commit g))).
  { unfold builder_ok. cbn. repeat split; constructor. }
  destruct (day_loop_ok _ _ _ _ _ _ _ _ _ H I0)
    as ((Ip & Ic & Im & Ich & Ipa & Ie) & ds & h & Hd & Ho & Hok & Hr & Hh & Hs).
  cbn [initial_state days st_builder st_random history app] in Hd, Hr, Hh.
  exists start. split; [|assumption].
  constructor; try assumption.
  - rewrite Hd. assumption.
  - rewrite Hd. assumption.
  - rewrite Hd. assumption.
  - rewrite Hd, Hh. assumption.
Qed.

(** ** The decision taken for a day *)

(** [randint] returns a value of the range and moves the source on by
    one draw. *)
Lemma randint_ok a b g x g' :
  randint a b g = Ok (x, g') ->
  a <= x <= b /\ g' = mk_random (entropy g) (S (cursor g)).
Proof.
  unfold randint. destruct (b <? a) eqn:E; [discriminate|].
  apply Z.ltb_ge in E. intros H. injection H as <- <-.
  split; [|reflexivity].
  pose proof (Z.mod_pos_bound (entropy g (cursor g)) (b - a + 1) ltac:(lia)). lia.
Qed.

Lemma randint_total a b g :
  a <= b -> exists x g', randint a b g = Ok (x, g').
Proof.
  intros H. unfold randint. destruct (b <? a) eqn:E.
  - apply Z.ltb_lt in E. lia.
  - eauto.
Qed.

(** The three ways a day is decided. *)
Lemma decide_day_inv config maxc day g o g' :
  decide_day config maxc day g = Ok (o, g') ->
  (no_weekends config = true /\ 5 <= weekday day /\
   o = SkippedWeekend /\ g' = g) \/
  (~ (no_weekends config = true /\ 5 <= weekday day) /\
   exists roll g1,
     randint 0 100 g = Ok (roll, g1) /\
     ((frequency config < roll /\ o = SkippedFrequency /\ g' = g1) \/
      (roll <= frequency config /\
       exists n, randint 1 maxc g1 = Ok (n, g') /\ o = Commits n))).
Proof.
  unfold decide_day.
  destruct (no_weekends config && (5 <=? weekday day)) eqn:W.
  - apply andb_true_iff in W. destruct W as [W1 W2]. apply Z.leb_le in W2.
    intros H. injection H as <- <-. left. auto.
  - intros H. right. split.
    { intros [W1 W2]. apply Z.leb_le in W2. rewrite W1, W2 in W. discriminate. }
    apply bind_ok in H. destruct H as ([roll g1] & Hr & H).
    exists roll, g1. split; [assumption|].
    destruct (frequency config <? roll) eqn:F.
    + apply Z.ltb_lt in F. injection H as <- <-. left. auto.
    + apply Z.ltb_ge in F. apply bind_ok in H. destruct H as ([n g2] & Hn & H).
      injection H as <- <-. right. split; [assumption|]. eauto.
Qed.

Lemma clamp_range m : 1 <= Z.max 1 (Z.min m 20) <= 20.
Proof. lia. Qed.

(** A day that receives commits receives between 1 and the clamped
    maximum. *)
Lemma day_ok_count config start d :
  day_ok config start d ->
  match de_outcome d with
  | Commits n => 1 <= n <= Z.max 1 (Z.min (max_commits config) 20)
  | _ => True
  end.
Proof.
  intros [_ H]. apply decide_day_inv in H.
  destruct H as [(_ & _ & -> & _) | (_ & roll & g1 & _ & [(_ & -> & _) | (_ & n & Hn & ->)])];
    try exact I.
  apply randint_ok in Hn. tauto.
Qed.

Lemma day_ok_count_bounds {config start d} :
  day_ok config start d -> 0 <= day_count (de_outcome d) <= 20.
Proof.
  intros H. apply day_ok_count in H.
  destruct (de_outcome d); cbn [day_count]; lia.
Qed.

Lemma in_range k n : In k (range n) <-> 0 <= k < n.
Proof.
  unfold range. rewrite in_map_iff. split.
  - intros (i & <- & Hi). apply in_seq in Hi. lia.
  - intros H. exists (Z.to_nat k). split; [lia|]. apply in_seq. lia.
Qed.

Lemma length_range n : Z.of_nat (List.length (range n)) = Z.max 0 n.
Proof. unfold range. rewrite length_map, length_seq. lia. Qed.

(** Every entry of the history belongs to a day of [days] and to one
    of its slots. *)
Lemma entry_day h ds e :
  map slot h = flat_map day_slots ds -> In e h ->
  exists d, In d ds /\ ce_day e = de_day d /\
            0 <= ce_minute_offset e < day_count (de_outcome d).
Proof.
  intros E He.
  assert (Hs : In (slot e) (flat_map day_slots ds)).
  { rewrite <- E. apply in_map. exact He. }
  apply in_flat_map in Hs. destruct Hs as (d & Hd & Hk).
  unfold day_slots in Hk. apply in_map_iff in Hk.
  destruct Hk as (k & Hk & Hr). apply in_range in Hr.
  unfold slot in Hk. injection Hk as Hday Hoff.
  exists d. split; [assumption|]. split; [congruence|]. lia.
Qed.

Lemma length_day_slots config start ds :
  Forall (day_ok config start) ds ->
  Z.of_nat (List.length (flat_map day_slots ds)) = total_scheduled ds.
Proof.
  induction 1 as [|d ds Hd _ IH]; [reflexivity|].
  cbn [flat_map total_scheduled fold_right]. rewrite length_app, Nat2Z.inj_add.
  fold (total_scheduled ds). rewrite IH.
  unfold day_slots. rewrite length_map, length_range.
  apply day_ok_count_bounds in Hd. lia.
Qed.

(** [count] is the number of commits scheduled over the days. *)
Lemma run_total_count {pf config name email curr_date parent_commit g start s} :
  run_spec pf config name email curr_date parent_commit g start s ->
  count (st_builder s) = total_scheduled (days s).
Proof.
  intros R. rewrite (run_count R).
  rewrite <- (length_day_slots _ _ _ (run_days R)).
  rewrite <- (run_slots R), length_map. reflexivity.
Qed.

(** ** Days and minutes added to a datetime *)

Lemma valid_wf_time dt : valid_datetime dt -> wf_time dt.
Proof. unfold valid_datetime, wf_time. tauto. Qed.

Lemma timedelta_whole d s :
  0 <= s < 86400 ->
  timedelta d s 0 = mk_timedelta d s 0.
Proof.
  intros H. unfold timedelta. f_equal.
  - change (0 / 1000000) with 0. rewrite Z.add_0_r, Z.div_small by lia. lia.
  - change (0 / 1000000) with 0. rewrite Z.add_0_r. apply Z.mod_small. lia.
Qed.

Lemma timedelta_neg_days d :
  timedelta_neg (timedelta d 0 0) = timedelta (- d) 0 0.
Proof. rewrite timedelta_whole by lia. reflexivity. Qed.

Lemma datetime_add_fields dt d s dt' :
  wf_time dt -> 0 <= s ->
  hour dt * 3600 + minute dt * 60 + second dt + s < 86400 ->
  datetime_add dt (timedelta d s 0) = Ok dt' ->
  toordinal dt' = toordinal dt + d /\
  (year dt', month dt', day dt') = ord2ymd (toordinal dt + d) /\
  seconds_of_day dt' = seconds_of_day dt + s /\
  0 <= minute dt' < 60 /\ 0 <= second dt' < 60 /\
  microsecond dt' = microsecond dt.
Proof.
  intros (Hh & Hm & Hs & Hu) Hs0 Hlt H.
  rewrite timedelta_whole in H by lia.
  apply datetime_add_inv in H. cbv zeta in H.
  cbn [td_days td_seconds td_microseconds] in H.
  unfold timedelta in H. cbn [td_days td_seconds td_microseconds] in H.
  rewrite Z.add_0_r in H.
  rewrite (Z.div_small (microsecond dt)), (Z.mod_small (microsecond dt)) in H by lia.
  rewrite Z.add_0_r in H.
  unfold seconds_of_day in *.
  rewrite (Z.div_small (_ + s)), (Z.mod_small (_ + s)) in H by lia.
  rewrite Z.add_0_r in H.
  destruct H as (R & E & Ho & Hh' & Hm' & Hs' & Hu').
  repeat split; try assumption; try lia.
  - rewrite Hh', Hm', Hs'. Z.div_mod_to_equations. lia.
  - rewrite Hm'. Z.div_mod_to_equations. lia.
  - rewrite Hm'. Z.div_mod_to_equations. lia.
  - rewrite Hs'. Z.div_mod_to_equations. lia.
  - rewrite Hs'. Z.div_mod_to_equations. lia.
Qed.

Lemma hms_unique h m s h' m' s' :
  0 <= m < 60 -> 0 <= s < 60 -> 0 <= m' < 60 -> 0 <= s' < 60 ->
  h * 3600 + m * 60 + s = h' * 3600 + m' * 60 + s' ->
  h = h' /\ m = m' /\ s = s'.
Proof. intros. lia. Qed.

(** Adding whole days keeps the time of the day. *)
Lemma add_days_fields dt n dt' :
  wf_time dt ->
  datetime_add dt (timedelta n 0 0) = Ok dt' ->
  toordinal dt' = toordinal dt + n /\
  (year dt', month dt', day dt') = ord2ymd (toordinal dt + n) /\
  hour dt' = hour dt /\ minute dt' = minute dt /\ second dt' = second dt /\
  microsecond dt' = microsecond dt.
Proof.
  intros W H. pose proof W as (Hh & Hm & Hs & Hu).
  apply datetime_add_fields in H; try assumption; try lia.
  destruct H as (Ho & E & Hsod & Hm' & Hs' & Hu').
  unfold seconds_of_day in Hsod. rewrite Z.add_0_r in Hsod.
  apply hms_unique in Hsod; try assumption. tauto.
Qed.

(** Adding minutes that stay within the hour moves the minute only. *)
Lemma add_minutes_fields dt k dt' :
  wf_time dt -> 0 <= k -> minute dt + k < 60 ->
  datetime_add dt (timedelta 0 (k * 60) 0) = Ok dt' ->
  toordinal dt' = toordinal dt /\
  (year dt', month dt', day dt') = ord2ymd (toordinal dt) /\
  hour dt' = hour dt /\ minute dt' = minute dt + k /\
  second dt' = second dt /\ microsecond dt' = microsecond dt.
Proof.
  intros W Hk Hlt H. pose proof W as (Hh & Hm & Hs & Hu).
  apply datetime_add_fields in H; try assumption; try lia.
  destruct H as (Ho & E & Hsod & Hm' & Hs' & Hu').
  rewrite Z.add_0_r in Ho, E.
  unfold seconds_of_day in Hsod.
  assert (Hsod' : hour dt' * 3600 + minute dt' * 60 + second dt' =
                  hour dt * 3600 + (minute dt + k) * 60 + second dt) by lia.
  apply hms_unique in Hsod'; try assumption; try lia. tauto.
Qed.

Lemma valid_date_fields dt :
  valid_datetime dt ->
  ord2ymd (toordinal dt) = (year dt, month dt, day dt).
Proof.
  intros ((_ & Hm & Hd) & _). apply ord2ymd_ymd2ord; assumption.
Qed.

(** ** The order of the commit times *)





Lemma day_instant {config start d} :
  day_ok config start d ->
  valid_datetime (de_day d) /\
  instant (de_day d) = instant start + de_offset d * 86400000000.
Proof.
  intros [H _]. split; [eapply datetime_add_valid; eassumption|].
  apply datetime_add_instant in H. rewrite H.
  pose proof (timedelta_normal (de_offset d) 0 0) as N. cbv zeta in N.
  lia.
Qed.

Lemma entry_instant {pf name email e} :
  entry_ok pf name email e ->
  valid_datetime (ce_time e) /\ instant (ce_time e) = slot_instant (slot e).
Proof.
  intros [H _]. split; [eapply datetime_add_valid; eassumption|].
  apply datetime_add_instant in H. rewrite H.
  pose proof (timedelta_normal 0 (ce_minute_offset e * 60) 0) as N. cbv zeta in N.
  unfold slot_instant, slot. cbn [fst snd]. lia.
Qed.







(** ** The text of a commit time *)

Lemma digit_value_digit d :
  0 <= d <= 9 -> digit_value (digit d) = Some d.
Proof.
  intros H.
  assert (C : d = 0 \/ d = 1 \/ d = 2 \/ d = 3 \/ d = 4 \/ d = 5 \/ d = 6 \/
              d = 7 \/ d = 8 \/ d = 9) by lia.
  repeat (destruct C as [-> | C]; [reflexivity|]). subst d. reflexivity.
Qed.

Lemma read_digits_pad2 n rest :
  0 <= n < 100 ->
  read_digits 2 0 (pad2 n ++ rest) = Some (n, rest).
Proof.
  intros H. unfold pad2. cbn [String.append read_digits].
  rewrite !digit_value_digit by (Z.div_mod_to_equations; lia).
  f_equal. f_equal. Z.div_mod_to_equations. lia.
Qed.

Lemma read_digits_pad4 n rest :
  0 <= n < 10000 ->
  read_digits 4 0 (pad4 n ++ rest) = Some (n, rest).
Proof.
  intros H. unfold pad4, pad2. cbn [String.append read_digits].
  rewrite !digit_value_digit by (Z.div_mod_to_equations; lia).
  f_equal. f_equal. Z.div_mod_to_equations. lia.
Qed.


Lemma days_in_month_le_31 y m : days_in_month y m <= 31.
Proof.
  unfold days_in_month. destruct ((m =? 2) && is_leap y); [lia|].
  unfold DAYS_IN_MONTH.
  destruct m as [|p|p]; try lia.
  do 4 (try destruct p as [p|p|]; try lia).
Qed.


(** ** The lines of a commit record *)

Lemma strip_prefix_append p s : strip_prefix p (p ++ s) = Some s.
Proof.
  induction p as [|c p IH]; [destruct s; reflexivity|].
  cbn. rewrite Ascii.eqb_refl. exact IH.
Qed.

Lemma commit_lines_head pf name email mark tstamp msg parent blob_mark :
  hd_error (commit_lines pf name email mark tstamp msg parent blob_mark) =
    Some "commit refs/heads/main"%string.
Proof. reflexivity. Qed.

Ltac commit_field t parent :=
  unfold commit_lines, commit_message, field, parent_text;
  generalize (strftime_Ymd_HM t);
  intros; destruct parent as [[?|?]|]; reflexivity.

Lemma commit_lines_branch pf name email mark tstamp t parent blob_mark :
  field "commit "
        (commit_lines pf name email mark tstamp (commit_message t) parent
                      blob_mark) =
    ["refs/heads/main"%string].
Proof. commit_field t parent. Qed.

Lemma commit_lines_mark pf name email mark tstamp t parent blob_mark :
  field "mark "
        (commit_lines pf name email mark tstamp (commit_message t) parent
                      blob_mark) =
    [(":" ++ str mark)%string].
Proof. commit_field t parent. Qed.

Lemma commit_lines_from pf name email mark tstamp t parent blob_mark :
  field "from "
        (commit_lines pf name email mark tstamp (commit_message t) parent
                      blob_mark) =
    match parent with
    | Some p => [parent_text p]
    | None => []
    end.
Proof. commit_field t parent. Qed.


(** ** The days and the entries of a run *)

Lemma start_date_valid config curr_date start :
  start_date config curr_date = Ok start -> valid_datetime start.
Proof. unfold start_date, datetime_sub. apply datetime_add_valid. Qed.

Lemma start_date_fields config curr_date start :
  valid_datetime curr_date ->
  start_date config curr_date = Ok start ->
  toordinal start = toordinal curr_date - days_before config /\
  hour start = 20 /\ minute start = 0 /\
  second start = second curr_date /\
  microsecond start = microsecond curr_date.
Proof.
  intros V H. unfold start_date, datetime_sub in H.
  rewrite timedelta_neg_days in H.
  apply add_days_fields in H.
  - cbn [replace_hour_minute hour minute second microsecond] in H.
    unfold toordinal in *. cbn [replace_hour_minute year month day] in H.
    repeat split; try tauto; lia.
  - destruct V as (_ & Hh & Hm & Hs & Hu).
    unfold wf_time. cbn [replace_hour_minute hour minute second microsecond].
    repeat split; try lia.
Qed.

Lemma day_fields config start d :
  wf_time start -> day_ok config start d ->
  toordinal (de_day d) = toordinal start + de_offset d /\
  hour (de_day d) = hour start /\ minute (de_day d) = minute start /\
  second (de_day d) = second start /\
  microsecond (de_day d) = microsecond start.
Proof.
  intros W [H _]. apply add_days_fields in H; [|assumption]. tauto.
Qed.

Lemma entry_fields pf name email e :
  entry_ok pf name email e -> valid_datetime (ce_day e) ->
  0 <= ce_minute_offset e -> minute (ce_day e) + ce_minute_offset e < 60 ->
  (year (ce_time e), month (ce_time e), day (ce_time e)) =
    (year (ce_day e), month (ce_day e), day (ce_day e)) /\
  hour (ce_time e) = hour (ce_day e) /\
  minute (ce_time e) = minute (ce_day e) + ce_minute_offset e /\
  second (ce_time e) = second (ce_day e) /\
  microsecond (ce_time e) = microsecond (ce_day e).
Proof.
  intros [H _] V Hk Hlt.
  apply add_minutes_fields in H; try assumption; [|apply valid_wf_time; assumption].
  rewrite (valid_date_fields _ V) in H. tauto.
Qed.

Lemma weekday_range dt : 0 <= weekday dt <= 6.
Proof. unfold weekday. Z.div_mod_to_equations. lia. Qed.

Lemma day_weekday config start d :
  wf_time start -> day_ok config start d ->
  weekday (de_day d) = (weekday start + de_offset d) mod 7.
Proof.
  intros W H. apply day_fields in H; [|assumption]. destruct H as (Ho & _).
  unfold weekday. rewrite Ho. Z.div_mod_to_equations. lia.
Qed.

(** ** The schedule and the stream of a run *)

Lemma chained_first p m h e :
  chained p m h -> nth_error h 0 = Some e -> ce_parent e = p.
Proof.
  destruct h as [|e0 h]; [discriminate|].
  cbn. intros (C & _) E. injection E as <-. exact C.
Qed.

Lemma chained_next h : forall p m i e e',
  chained p m h -> nth_error h i = Some e -> nth_error h (S i) = Some e' ->
  ce_parent e' = Some (ParentMark (ce_mark e)).
Proof.
  induction h as [|e0 h IH]; intros p m i e e' C E E'; [destruct i; discriminate|].
  cbn [chained] in C. destruct C as (_ & _ & Cm & C).
  destruct i as [|i].
  - cbn in E. injection E as <-. cbn [nth_error] in E'.
    rewrite Cm. eapply chained_first; eassumption.
  - cbn [nth_error] in E, E'. eapply IH; eassumption.
Qed.

Lemma entry_from {pf name email e} :
  entry_ok pf name email e ->
  field "from " (ce_commit e) =
    match ce_parent e with
    | Some p => [parent_text p]
    | None => []
    end.
Proof. intros [_ ->]. apply commit_lines_from. Qed.

Lemma entry_mark {pf name email e} :
  entry_ok pf name email e ->
  field "mark " (ce_commit e) = [(":" ++ str (ce_mark e))%string].
Proof. intros [_ ->]. apply commit_lines_mark. Qed.

(** The returned string is the rendering of the history. *)
Lemma stream_of_state {pf config name email curr_date parent_commit g s} :
  build_state pf config name email curr_date parent_commit g = Ok s ->
  build_fast_import_stream pf config name email curr_date parent_commit g =
    Ok (join LF (flat_map render_entry (history (st_builder s)))).
Proof.
  intros H. unfold build_fast_import_stream. rewrite H. cbn [bind].
  destruct (build_state_spec H) as (start & R & _).
  rewrite (run_parts R). reflexivity.
Qed.

Lemma nth_error_Forall {A} {P : A -> Prop} {l i x} :
  Forall P l -> nth_error l i = Some x -> P x.
Proof.
  intros F E. rewrite Forall_forall in F. apply F.
  eapply nth_error_In. eassumption.
Qed.

(** C2 (chain integrity).  A run without a pre-existing parent that
    emits [N = count] commits -- the commits scheduled over all days --
    produces the stream of exactly [N] blob and commit records; the first
    commit record has no [from] line, and the [from] line of every later
    record carries the mark that the [mark] line of the record just
    before it declares. *)
Theorem chain_integrity pf config name email curr_date g s :
  build_state pf config name email curr_date None g = Ok s ->
  let h := history (st_builder s) in
  build_fast_import_stream pf config name email curr_date None g =
    Ok (join LF (flat_map render_entry h)) /\
  count (st_builder s) = total_scheduled (days s) /\
  Z.of_nat (List.length h) = count (st_builder s) /\
  Forall (fun e => hd_error (ce_commit e) = Some "commit refs/heads/main"%string /\
                   field "mark " (ce_commit e) =
                     [(":" ++ str (ce_mark e))%string]) h /\
  (forall e, nth_error h 0 = Some e -> field "from " (ce_commit e) = []) /\
  (forall i e e', nth_error h i = Some e -> nth_error h (S i) = Some e' ->
     field "from " (ce_commit e') = field "mark " (ce_commit e)).
Proof.
  intros H h.
  destruct (build_state_spec H) as (start & R & _).
  pose proof (run_entries R) as E.
  pose proof (run_chained R) as C.
  cbn [option_map] in C. fold h in E, C.
  split; [apply stream_of_state; assumption|].
  split; [eapply run_total_count; eassumption|].
  split; [symmetry; apply (run_count R)|].
  split; [|split].
  - eapply Forall_impl; [|exact E]. intros e He. split.
    + destruct He as [_ ->]. apply commit_lines_head.
    + eapply entry_mark; eassumption.
  - intros e He.
    rewrite (entry_from (nth_error_Forall E He)).
    rewrite (chained_first _ _ _ _ C He). reflexivity.
  - intros i e e' He He'.
    rewrite (entry_from (nth_error_Forall E He')).
    rewrite (chained_next _ _ _ _ _ _ C He He').
    rewrite (entry_mark (nth_error_Forall E He)).
    reflexivity.
Qed.

Lemma chain_integrity_witness :
  build_state utc week_config "Ann" "ann@example.com" monday None dice =
    Ok week_state /\
  Z.of_nat (List.length (history (st_builder week_state))) = 11 /\
  count (st_builder week_state) = total_scheduled (days week_state).
Proof.
  assert (H : build_state utc week_config "Ann" "ann@example.com" monday None
                dice = Ok week_state) by (vm_compute; reflexivity).
  split; [exact H|].
  split; [vm_compute; reflexivity|].
  apply (chain_integrity utc week_config "Ann" "ann@example.com" monday dice
           week_state H).
Defined.

(** C4 (append chaining).  When a commit id is supplied as the
    pre-existing parent, the [from] line of the first commit record is
    that id, verbatim, and the [from] line of every later record is the
    mark reference [:<mark>] of the record just before it. *)
Theorem append_chaining pf config name email curr_date sha g s :
  build_state pf config name email curr_date (Some sha) g = Ok s ->
  let h := history (st_builder s) in
  build_fast_import_stream pf config name email curr_date (Some sha) g =
    Ok (join LF (flat_map render_entry h)) /\
  (forall e, nth_error h 0 = Some e -> field "from " (ce_commit e) = [sha]) /\
  (forall i e e', nth_error h i = Some e -> nth_error h (S i) = Some e' ->
     field "from " (ce_commit e') = [(":" ++ str (ce_mark e))%string] /\
     field "mark " (ce_commit e) = [(":" ++ str (ce_mark e))%string]).
Proof.
  intros H h.
  destruct (build_state_spec H) as (start & R & _).
  pose proof (run_entries R) as E.
  pose proof (run_chained R) as C.
  cbn [option_map] in C. fold h in E, C.
  split; [apply stream_of_state; assumption|]. split.
  - intros e He.
    rewrite (entry_from (nth_error_Forall E He)).
    rewrite (chained_first _ _ _ _ C He). reflexivity.
  - intros i e e' He He'. split.
    + rewrite (entry_from (nth_error_Forall E He')).
      rewrite (chained_next _ _ _ _ _ _ C He He'). reflexivity.
    + apply (entry_mark (nth_error_Forall E He)).
Qed.

Lemma append_chaining_witness :
  build_state utc week_config "Ann" "ann@example.com" monday
              (Some "1f3c9a7e"%string) dice = Ok append_state /\
  map (fun e => field "from " (ce_commit e))
      (firstn 2 (history (st_builder append_state))) =
    [["1f3c9a7e"%string]; [":2"%string]] /\
  forall e, nth_error (history (st_builder append_state)) 0 = Some e ->
            field "from " (ce_commit e) = ["1f3c9a7e"%string].
Proof.
  assert (H : build_state utc week_config "Ann" "ann@example.com" monday
                (Some "1f3c9a7e"%string) dice = Ok append_state)
    by (vm_compute; reflexivity).
  split; [exact H|].
  split; [vm_compute; reflexivity|].
  apply (append_chaining utc week_config "Ann" "ann@example.com" monday
           "1f3c9a7e"%string dice append_state H).
Defined.

(** C3 (count clamp).  Whatever [max_commits] the configuration asks
    for, no day receives more than 20 commits; and when [max_commits] is
    within its valid range 1..20, every day that receives commits
    receives between 1 and [max_commits] of them. *)
Theorem count_clamp pf config name email curr_date parent_commit g s :
  build_state pf config name email curr_date parent_commit g = Ok s ->
  Forall (fun d => 0 <= day_count (de_outcome d) <= 20) (days s) /\
  (1 <= max_commits config <= 20 ->
   Forall (fun d => forall n, de_outcome d = Commits n ->
                              1 <= n <= max_commits config) (days s)).
Proof.
  intros H.
  destruct (build_state_spec H) as (start & R & _).
  pose proof (run_days R) as D. split.
  - eapply Forall_impl; [|exact D]. intros d Hd.
    eapply day_ok_count_bounds; eassumption.
  - intros V. eapply Forall_impl; [|exact D]. intros d Hd n Hn.
    apply day_ok_count in Hd. rewrite Hn in Hd. lia.
Qed.

Lemma count_clamp_witness :
  build_state utc greedy_config "Ann" "ann@example.com" monday None
              (mk_random (fun _ => 19) 0) = Ok greedy_state /\
  max_commits greedy_config = 50 /\
  map (fun d => day_count (de_outcome d)) (days greedy_state) = [20; 20; 20] /\
  Forall (fun d => 0 <= day_count (de_outcome d) <= 20) (days greedy_state) /\
  (1 <= max_commits week_config <= 20) /\
  Forall (fun d => forall n, de_outcome d = Commits n ->
                             1 <= n <= max_commits week_config)
         (days week_state).
Proof.
  assert (H : build_state utc greedy_config "Ann" "ann@example.com" monday None
                (mk_random (fun _ => 19) 0) = Ok greedy_state)
    by (vm_compute; reflexivity).
  assert (H' : build_state utc week_config "Ann" "ann@example.com" monday None
                 dice = Ok week_state) by (vm_compute; reflexivity).
  assert (V : 1 <= max_commits week_config <= 20) by (simpl; lia).
  split; [exact H|].
  split; [reflexivity|].
  split; [vm_compute; reflexivity|].
  split; [apply (count_clamp utc greedy_config "Ann" "ann@example.com" monday
                   None (mk_random (fun _ => 19) 0) greedy_state H)|].
  split; [exact V|].
  apply (count_clamp utc week_config "Ann" "ann@example.com" monday None dice
           week_state H'). exact V.
Defined.

(** C6 (weekend exclusion).  With [no_weekends] set, a day of the range
    that falls on a Saturday or a Sunday is skipped before any draw: its
    count is 0 and the random source leaves the day as it entered it,
    whatever the frequency. *)
Theorem weekend_exclusion pf config name email curr_date parent_commit g s :
  build_state pf config name email curr_date parent_commit g = Ok s ->
  no_weekends config = true ->
  Forall (fun d => weekday (de_day d) = 5 \/ weekday (de_day d) = 6 ->
                   de_outcome d = SkippedWeekend /\
                   day_count (de_outcome d) = 0 /\
                   day_slots d = [] /\
                   de_after d = de_before d) (days s).
Proof.
  intros H W.
  destruct (build_state_spec H) as (start & R & _).
  pose proof (run_days R) as D.
  eapply Forall_impl; [|exact D]. intros d [_ Hd] Hw.
  apply decide_day_inv in Hd.
  destruct Hd as [(_ & _ & Ho & Hg) | (N & _)].
  - unfold day_slots. rewrite Ho. cbn. auto.
  - exfalso. apply N. split; [assumption|lia].
Qed.

Lemma weekend_exclusion_witness :
  build_state utc week_config "Ann" "ann@example.com" monday None dice =
    Ok week_state /\
  no_weekends week_config = true /\
  map (fun d => weekday (de_day d)) (days week_state) = [0; 1; 2; 3; 4; 5; 6] /\
  Forall (fun d => weekday (de_day d) = 5 \/ weekday (de_day d) = 6 ->
                   de_outcome d = SkippedWeekend /\
                   day_count (de_outcome d) = 0 /\
                   day_slots d = [] /\
                   de_after d = de_before d) (days week_state).
Proof.
  assert (H : build_state utc week_config "Ann" "ann@example.com" monday None
                dice = Ok week_state) by (vm_compute; reflexivity).
  split; [exact H|].
  split; [reflexivity|].
  split; [vm_compute; reflexivity|].
  apply (weekend_exclusion utc week_config "Ann" "ann@example.com" monday None
           dice week_state H). reflexivity.
Defined.

(** With a frequency of 100 the frequency test skips no day. *)
Lemma frequency_full_never_skips config start d :
  frequency config = 100 -> day_ok config start d ->
  de_outcome d <> SkippedFrequency.
Proof.
  intros F [_ H] E. apply decide_day_inv in H.
  destruct H as [(_ & _ & Ho & _) | (_ & roll & g1 & Hr & [(L & _) | (_ & n & _ & Ho)])];
    try congruence.
  apply randint_ok in Hr. lia.
Qed.

(** With a frequency of 0 a day passes the frequency test exactly when
    the roll is 0. *)
Lemma frequency_zero_roll config maxc day g o g' :
  frequency config = 0 ->
  ~ (no_weekends config = true /\ 5 <= weekday day) ->
  decide_day config maxc day g = Ok (o, g') ->
  (o = SkippedFrequency <-> entropy g (cursor g) mod 101 <> 0).
Proof.
  intros F N H. apply decide_day_inv in H.
  destruct H as [(W1 & W2 & _) | (_ & roll & g1 & Hr & H)]; [tauto|].
  assert (Hroll : roll = entropy g (cursor g) mod 101).
  { unfold randint in Hr. cbn in Hr. injection Hr as <- _. reflexivity. }
  apply randint_ok in Hr.
  destruct H as [(L & -> & _) | (L & n & _ & ->)].
  - split; [lia|reflexivity].
  - split; [discriminate|lia].
Qed.

(** C1 (frequency boundaries), at the failing input: with
    [frequency = 0] and a roll of 0, the test [roll > frequency] does not
    skip the day, and the commits of that day reach the stream. *)
Theorem frequency_zero_day_committed :
  frequency never_config = 0 /\
  build_state utc never_config "Ann" "ann@example.com" monday None zeros =
    Ok never_state /\
  map de_outcome (days never_state) = [Commits 1] /\
  count (st_builder never_state) = 1.
Proof.
  split; [reflexivity|].
  split; [vm_compute; reflexivity|].
  split; vm_compute; reflexivity.
Qed.

(** An addition that stays within the day and within 1..MAXORDINAL
    succeeds. *)
Lemma datetime_add_succeeds dt d s :
  wf_time dt -> 0 <= s ->
  hour dt * 3600 + minute dt * 60 + second dt + s < 86400 ->
  1 <= toordinal dt + d <= MAXORDINAL ->
  exists dt', datetime_add dt (timedelta d s 0) = Ok dt'.
Proof.
  intros (Hh & Hm & Hs & Hu) Hs0 Hlt Ho.
  rewrite timedelta_whole by lia.
  unfold datetime_add. cbn [td_days td_seconds td_microseconds].
  unfold timedelta. cbn [td_days td_seconds td_microseconds].
  rewrite Z.add_0_r.
  rewrite (Z.div_small (microsecond dt)) by lia.
  rewrite Z.add_0_r.
  rewrite (Z.div_small (_ + s)) by lia.
  rewrite Z.add_0_r.
  destruct ((0 <? toordinal dt + d) && (toordinal dt + d <=? MAXORDINAL)) eqn:E.
  - destruct (ord2ymd (toordinal dt + d)) as [[y m] dd]. eauto.
  - apply andb_false_iff in E. rewrite Z.ltb_ge, Z.leb_gt in E. lia.
Qed.

Lemma start_date_succeeds config curr_date :
  valid_datetime curr_date ->
  1 <= toordinal curr_date - days_before config <= MAXORDINAL ->
  exists start, start_date config curr_date = Ok start.
Proof.
  intros (_ & Hh & Hm & Hs & Hu) Ho.
  unfold start_date, datetime_sub. rewrite timedelta_neg_days.
  apply datetime_add_succeeds.
  - unfold wf_time. cbn [replace_hour_minute hour minute second microsecond]. lia.
  - lia.
  - cbn [replace_hour_minute hour minute second microsecond]. lia.
  - unfold toordinal in *. cbn [replace_hour_minute year month day]. lia.
Qed.

Lemma emit_commit_succeeds pf name email day k b :
  valid_datetime day -> hour day = 20 -> minute day = 0 -> 0 <= k < 20 ->
  exists b', emit_commit pf name email day k b = Ok b'.
Proof.
  intros V Hh Hm Hk. pose proof V as ((Vy & Vm & Vd) & _ & _ & Vs & _).
  destruct (datetime_add_succeeds day 0 (k * 60)) as (t & Ht).
  - apply valid_wf_time. exact V.
  - lia.
  - lia.
  - pose proof (ymd2ord_range _ _ _ (conj Vy (conj Vm Vd))).
    unfold toordinal. lia.
  - unfold emit_commit. rewrite Ht. cbn [bind]. eauto.
Qed.

Lemma emit_loop_succeeds pf name email day ks : forall b,
  valid_datetime day -> hour day = 20 -> minute day = 0 ->
  Forall (fun k => 0 <= k < 20) ks ->
  exists b', for_each ks (emit_commit pf name email day) b = Ok b'.
Proof.
  induction ks as [|k ks IH]; intros b V Hh Hm F.
  - cbn. eauto.
  - apply Forall_cons_iff in F. destruct F as [Hk F].
    destruct (emit_commit_succeeds pf name email day k b V Hh Hm Hk) as (b1 & H1).
    destruct (IH b1 V Hh Hm F) as (b' & H').
    exists b'. cbn [for_each]. rewrite H1. exact H'.
Qed.

Lemma decide_day_succeeds config maxc day g :
  1 <= maxc -> exists o g', decide_day config maxc day g = Ok (o, g').
Proof.
  intros Hm. unfold decide_day.
  destruct (no_weekends config && (5 <=? weekday day)); [eauto|].
  destruct (randint_total 0 100 g ltac:(lia)) as (roll & g1 & ->). cbn [bind].
  destruct (frequency config <? roll); [eauto|].
  destruct (randint_total 1 maxc g1 Hm) as (n & g2 & ->). cbn [bind]. eauto.
Qed.

Lemma day_step_succeeds pf config name email start off s :
  valid_datetime start -> hour start = 20 -> minute start = 0 ->
  1 <= toordinal start + off <= MAXORDINAL ->
  exists s', day_step pf config name email start
               (Z.max 1 (Z.min (max_commits config) 20)) off s = Ok s'.
Proof.
  intros V Hh Hm Ho. pose proof (valid_wf_time _ V) as W.
  pose proof W as (_ & _ & Ws & _).
  destruct (datetime_add_succeeds start off 0 W) as (dy & Hd); try lia.
  pose proof (datetime_add_valid _ _ _ Hd) as Vd.
  pose proof (add_days_fields _ _ _ W Hd) as (_ & _ & Dh & Dm & _).
  unfold day_step. rewrite Hd. cbn [bind].
  destruct (decide_day_succeeds config (Z.max 1 (Z.min (max_commits config) 20))
              dy (st_random s) ltac:(lia)) as (o & g & Hdec).
  rewrite Hdec. cbn [bind].
  pose proof (decide_day_inv _ _ _ _ _ _ Hdec) as I.
  destruct o as [| |n]; cbn [bind]; eauto.
  destruct (emit_loop_succeeds pf name email dy (range n) (st_builder s))
    as (b & Hb); try assumption; try congruence.
  - apply Forall_forall. intros k Hk. apply in_range in Hk.
    destruct I as [(_ & _ & I & _) | (_ & roll & g1 & _ & [(_ & I & _) | (_ & n' & Hn & I)])];
      try discriminate.
    injection I as <-. apply randint_ok in Hn. lia.
  - rewrite Hb. cbn [bind]. eauto.
Qed.

Lemma day_loop_succeeds pf config name email start offs : forall s,
  valid_datetime start -> hour start = 20 -> minute start = 0 ->
  Forall (fun off => 1 <= toordinal start + off <= MAXORDINAL) offs ->
  exists s', for_each offs (day_step pf config name email start
               (Z.max 1 (Z.min (max_commits config) 20))) s = Ok s'.
Proof.
  induction offs as [|off offs IH]; intros s V Hh Hm F.
  - cbn. eauto.
  - apply Forall_cons_iff in F. destruct F as [Ho F].
    destruct (day_step_succeeds pf config name email start off s V Hh Hm Ho)
      as (s1 & H1).
    destruct (IH s1 V Hh Hm F) as (s' & H').
    exists s'. cbn [for_each]. rewrite H1. exact H'.
Qed.

(** A run completes whenever every day of the range lies within the
    years 1..9999. *)
Lemma build_state_succeeds pf config name email curr_date parent_commit g :
  valid_datetime curr_date ->
  1 <= toordinal curr_date - days_before config <= MAXORDINAL ->
  toordinal curr_date + days_after config - 1 <= MAXORDINAL ->
  exists s, build_state pf config name email curr_date parent_commit g = Ok s.
Proof.
  intros V Hlo Hhi.
  destruct (start_date_succeeds config curr_date V Hlo) as (start & Hs).
  pose proof (start_date_fields _ _ _ V Hs) as (So & Sh & Sm & _).
  unfold build_state. rewrite Hs. cbn [bind].
  apply day_loop_succeeds; try assumption.
  - eapply start_date_valid; eassumption.
  - apply Forall_forall. intros off Hoff. apply in_range in Hoff. lia.
Qed.

(** C7 (empty run).  When no commit is scheduled over the whole range
    the stream is empty; it is so in particular for the empty range
    [days_before = days_after = 0]; and on an empty stream [main] calls
    neither [git fast-import] nor the [git checkout] that follows it. *)
Theorem empty_run_skips_import :
  (forall pf config name email curr_date parent_commit g s,
     build_state pf config name email curr_date parent_commit g = Ok s ->
     total_scheduled (days s) = 0 ->
     count (st_builder s) = 0 /\
     build_fast_import_stream pf config name email curr_date parent_commit g =
       Ok EmptyString) /\
  (forall pf config name email curr_date parent_commit g,
     valid_datetime curr_date ->
     days_before config = 0 -> days_after config = 0 ->
     build_fast_import_stream pf config name email curr_date parent_commit g =
       Ok EmptyString) /\
  (forall pf config curr_date global_name global_email head g calls,
     main pf config curr_date global_name global_email head g = Ok calls ->
     build_fast_import_stream pf config
       (or_else (user_name config) global_name)
       (or_else (user_email config) global_email) curr_date
       (if append config then head else None) g = Ok EmptyString ->
     forall c, In c calls ->
       match c with
       | GitWithInput _ _ => False
       | Git args => args <> ["checkout"; "main"]%string
       end).
Proof.
  split; [|split].
  - intros pf config name email curr_date parent_commit g s H Z0.
    destruct (build_state_spec H) as (start & R & _).
    pose proof (run_total_count R) as C.
    rewrite Z0 in C. split; [exact C|].
    rewrite (stream_of_state H).
    pose proof (run_count R) as L. rewrite C in L.
    destruct (history (st_builder s)); [reflexivity|cbn in L; lia].
  - intros pf config name email curr_date parent_commit g V Hb Ha.
    destruct (start_date_succeeds config curr_date V) as (start & Hs).
    { pose proof V as ((Vy & Vm & Vd) & _).
      pose proof (ymd2ord_range _ _ _ (conj Vy (conj Vm Vd))).
      unfold toordinal. lia. }
    unfold build_fast_import_stream, build_state.
    rewrite Hs, Hb, Ha. reflexivity.
  - intros pf config curr_date global_name global_email head g calls H E c Hc.
    unfold main in H.
    destruct (String.eqb (or_else (user_name config) global_name) EmptyString);
      [discriminate|].
    destruct (String.eqb (or_else (user_email config) global_email) EmptyString);
      [discriminate|].
    rewrite E in H. cbn [bind] in H. injection H as <-.
    cbn [app] in Hc.
    repeat (apply in_app_or in Hc; destruct Hc as [Hc|Hc]).
    + destruct (user_name config) as [[|a r]|]; cbn in Hc;
        try contradiction. destruct Hc as [<-|[]]. discriminate.
    + destruct (user_email config) as [[|a r]|]; cbn in Hc;
        try contradiction. destruct Hc as [<-|[]]. discriminate.
    + destruct (repository config) as [[|a r]|]; cbn in Hc; try contradiction.
      unfold push_to_remote in Hc.
      destruct (append config), (force config); cbn in Hc;
        repeat (destruct Hc as [<-|Hc]; [discriminate|]); contradiction.
Qed.

Lemma monday_valid : valid_datetime monday.
Proof.
  unfold valid_datetime, valid_date, MINYEAR, MAXYEAR. cbn.
  repeat split; discriminate.
Qed.

Lemma empty_run_skips_import_witness :
  (build_state utc never_config "Ann" "ann@example.com" monday None fives =
     Ok skipped_state /\
   total_scheduled (days skipped_state) = 0 /\
   build_fast_import_stream utc never_config "Ann" "ann@example.com" monday
                            None fives = Ok EmptyString) /\
  (valid_datetime monday /\
   build_fast_import_stream utc empty_config "Ann" "ann@example.com" monday
                            None dice = Ok EmptyString) /\
  (main utc publish_config monday "Ann" "ann@example.com" None dice =
     Ok [Git ["remote"; "add"; "origin"; "https://example.com/ann/demo.git"];
         Git ["branch"; "-M"; "main"];
         Git ["push"; "-u"; "origin"; "main"]]%string /\
   forall c,
     In c [Git ["remote"; "add"; "origin"; "https://example.com/ann/demo.git"];
           Git ["branch"; "-M"; "main"];
           Git ["push"; "-u"; "origin"; "main"]]%string ->
     match c with
     | GitWithInput _ _ => False
     | Git args => args <> ["checkout"; "main"]%string
     end).
Proof.
  destruct empty_run_skips_import as (P1 & P2 & P3).
  assert (H : build_state utc never_config "Ann" "ann@example.com" monday None
                fives = Ok skipped_state) by (vm_compute; reflexivity).
  assert (Z0 : total_scheduled (days skipped_state) = 0)
    by (vm_compute; reflexivity).
  assert (M : main utc publish_config monday "Ann" "ann@example.com" None dice =
     Ok [Git ["remote"; "add"; "origin"; "https://example.com/ann/demo.git"];
         Git ["branch"; "-M"; "main"];
         Git ["push"; "-u"; "origin"; "main"]]%string)
    by (vm_compute; reflexivity).
  split; [|split].
  - split; [exact H|]. split; [exact Z0|].
    apply (P1 utc never_config "Ann"%string "ann@example.com"%string monday
              None fives skipped_state H Z0).
  - split; [exact monday_valid|].
    apply (P2 utc empty_config "Ann"%string "ann@example.com"%string monday
              None dice monday_valid); reflexivity.
  - split; [exact M|].
    apply (P3 utc publish_config monday "Ann"%string "ann@example.com"%string
              None dice _ M).
    vm_compute. reflexivity.
Defined.

(** C5 (commit times).  The anchor is [curr_date] with hour 20 and
    minute 0, [days_before] days earlier; the day at offset [d] is the
    anchor [d] days later, still at 20:00; the slots of a day with
    [count] commits are the minute offsets 0 .. count-1; and the commit
    of slot [k] is dated on its day at 20:00 plus [k] minutes, that is at
    hour 20 and minute [k]. *)
Theorem commit_times pf config name email curr_date parent_commit g s :
  valid_datetime curr_date ->
  build_state pf config name email curr_date parent_commit g = Ok s ->
  exists start,
    start_date config curr_date = Ok start /\
    (toordinal start = toordinal curr_date - days_before config /\
     hour start = 20 /\ minute start = 0 /\
     second start = second curr_date /\
     microsecond start = microsecond curr_date) /\
    Forall (fun d =>
              toordinal (de_day d) = toordinal start + de_offset d /\
              hour (de_day d) = 20 /\ minute (de_day d) = 0 /\
              second (de_day d) = second curr_date /\
              microsecond (de_day d) = microsecond curr_date) (days s) /\
    map slot (history (st_builder s)) = flat_map day_slots (days s) /\
    Forall (fun e =>
              (year (ce_time e), month (ce_time e), day (ce_time e)) =
                (year (ce_day e), month (ce_day e), day (ce_day e)) /\
              hour (ce_time e) = 20 /\
              minute (ce_time e) = ce_minute_offset e /\
              second (ce_time e) = second curr_date /\
              microsecond (ce_time e) = microsecond curr_date /\
              instant (ce_time e) =
                instant (ce_day e) + ce_minute_offset e * 60000000)
           (history (st_builder s)).
Proof.
  intros V H.
  destruct (build_state_spec H) as (start & R & _).
  pose proof (run_start R) as Hs.
  pose proof (run_days R) as D.
  pose proof (run_entries R) as E.
  pose proof (run_slots R) as Sl.
  pose proof (start_date_fields _ _ _ V Hs) as (So & Sh & Sm & Ss & Su).
  pose proof (valid_wf_time _ (start_date_valid _ _ _ Hs)) as W.
  assert (DF : Forall (fun d =>
              toordinal (de_day d) = toordinal start + de_offset d /\
              hour (de_day d) = 20 /\ minute (de_day d) = 0 /\
              second (de_day d) = second curr_date /\
              microsecond (de_day d) = microsecond curr_date) (days s)).
  { eapply Forall_impl; [|exact D]. intros d Hd.
    apply day_fields in Hd; [|assumption].
    rewrite <- Sh, <- Sm, <- Ss, <- Su. exact Hd. }
  exists start. repeat split; try assumption.
  apply Forall_forall. intros e He.
  destruct (entry_day _ _ _ Sl He) as (d & Hd & Ed & Hk).
  rewrite Forall_forall in D, DF, E.
  pose proof (day_ok_count_bounds (D d Hd)) as Hc.
  pose proof (day_instant (D d Hd)) as [Vd _].
  destruct (DF d Hd) as (_ & Dh & Dm & Ds & Du).
  rewrite <- Ed in Vd, Dh, Dm, Ds, Du.
  pose proof (entry_instant (E e He)) as [_ I].
  pose proof (entry_fields _ _ _ _ (E e He) Vd) as F.
  destruct F as (F1 & F2 & F3 & F4 & F5); try lia.
  unfold slot_instant, slot in I. cbn [fst snd] in I.
  repeat split; try assumption; try congruence; lia.
Qed.

Lemma commit_times_witness :
  valid_datetime monday /\
  build_state utc week_config "Ann" "ann@example.com" monday None dice =
    Ok week_state /\
  map (fun e => (hour (ce_time e), minute (ce_time e)))
      (firstn 4 (history (st_builder week_state))) =
    [(20, 0); (20, 1); (20, 2); (20, 0)] /\
  exists start,
    start_date week_config monday = Ok start /\
    (toordinal start = toordinal monday - days_before week_config /\
     hour start = 20 /\ minute start = 0 /\
     second start = second monday /\
     microsecond start = microsecond monday).
Proof.
  assert (H : build_state utc week_config "Ann" "ann@example.com" monday None
                dice = Ok week_state) by (vm_compute; reflexivity).
  split; [exact monday_valid|].
  split; [exact H|].
  split; [vm_compute; reflexivity|].
  destruct (commit_times utc week_config "Ann" "ann@example.com" monday None
              dice week_state monday_valid H) as (start & Hs & F & _).
  exists start. split; assumption.
Defined.



(** C10 (branch).  Every commit record opens with the line
    [commit refs/heads/main], whatever the configuration, the identity,
    the platform, the date, the parent and the random source. *)
Theorem branch_is_main pf config name email curr_date parent_commit g s :
  build_state pf config name email curr_date parent_commit g = Ok s ->
  parts (st_builder s) = flat_map render_entry (history (st_builder s)) /\
  Forall (fun e =>
            hd_error (ce_commit e) = Some "commit refs/heads/main"%string /\
            field "commit " (ce_commit e) = ["refs/heads/main"%string])
         (history (st_builder s)).
Proof.
  intros H.
  destruct (build_state_spec H) as (start & R & _).
  split; [apply (run_parts R)|].
  pose proof (run_entries R) as E.
  eapply Forall_impl; [|exact E]. intros e [_ Hc]. rewrite Hc.
  split; [apply commit_lines_head|apply commit_lines_branch].
Qed.

Lemma branch_is_main_witness :
  build_state utc week_config "Ann" "ann@example.com" monday None dice =
    Ok week_state /\
  Forall (fun e =>
            hd_error (ce_commit e) = Some "commit refs/heads/main"%string /\
            field "commit " (ce_commit e) = ["refs/heads/main"%string])
         (history (st_builder week_state)).
Proof.
  assert (H : build_state utc week_config "Ann" "ann@example.com" monday None
                dice = Ok week_state) by (vm_compute; reflexivity).
  split; [exact H|].
  apply (branch_is_main utc week_config "Ann" "ann@example.com" monday None
           dice week_state H).
Defined.





(** * Further properties of the builder *)

Import Measures Samples.

(** ** The marks *)

Lemma count_from_S first n :
  count_from first (S n) = first :: count_from (first + 1) n.
Proof.
  unfold count_from. cbn [seq map]. f_equal; [lia|].
  rewrite <- seq_shift, map_map. apply map_ext. intros k. lia.
Qed.

Lemma in_count_from x first n :
  In x (count_from first n) -> first <= x < first + Z.of_nat n.
Proof.
  unfold count_from. rewrite in_map_iff. intros (k & <- & Hk).
  apply in_seq in Hk. lia.
Qed.

Lemma count_from_NoDup n : forall first, NoDup (count_from first n).
Proof.
  induction n as [|n IH]; intros first; [constructor|].
  rewrite count_from_S. constructor; [|apply IH].
  intros I. apply in_count_from in I. lia.
Qed.

Lemma chained_marks h : forall p m,
  chained p m h ->
  flat_map entry_marks h = count_from m (2 * List.length h).
Proof.
  induction h as [|e h IH]; intros p m C; [reflexivity|].
  cbn [chained] in C. destruct C as (_ & Hb & Hm & C).
  cbn [flat_map entry_marks app List.length].
  replace (2 * S (List.length h))%nat with (S (S (2 * List.length h))) by lia.
  rewrite !count_from_S, Hb, Hm. f_equal. f_equal.
  rewrite (IH _ _ C). f_equal. lia.
Qed.

Lemma chained_nth h : forall p m i e,
  chained p m h -> nth_error h i = Some e ->
  ce_blob_mark e = m + 2 * Z.of_nat i /\ ce_mark e = m + 2 * Z.of_nat i + 1.
Proof.
  induction h as [|e0 h IH]; intros p m i e C E; [destruct i; discriminate|].
  cbn [chained] in C. destruct C as (_ & Hb & Hm & C).
  destruct i as [|i].
  - cbn in E. injection E as <-. lia.
  - cbn [nth_error] in E. destruct (IH _ _ _ _ C E). lia.
Qed.

Lemma commit_lines_modify pf name email mark tstamp t parent blob_mark :
  field "M "
        (commit_lines pf name email mark tstamp (commit_message t) parent
                      blob_mark) =
    [("100644 :" ++ str blob_mark ++ " README.md" ++ LF)%string].
Proof. commit_field t parent. Qed.

(** X1: marks.  The marks of a stream, in the order of the records, are
    1, 2, ..., 2N for its N commits: every blob and every commit gets the
    next unused mark, the commit of a pair directly after its blob, the
    file line of a commit names the blob of its pair, and the counter
    ends at 2N + 1. *)
Theorem marks_are_sequential pf config name email curr_date parent_commit g s :
  build_state pf config name email curr_date parent_commit g = Ok s ->
  let h := history (st_builder s) in
  flat_map entry_marks h = count_from 1 (2 * List.length h) /\
  NoDup (flat_map entry_marks h) /\
  mark (st_builder s) = 2 * Z.of_nat (List.length h) + 1 /\
  (forall i e, nth_error h i = Some e ->
     ce_blob_mark e = 2 * Z.of_nat i + 1 /\
     ce_mark e = 2 * Z.of_nat i + 2 /\
     nth_error (parts (st_builder s)) (2 * i) =
       Some (blob_part (2 * Z.of_nat i + 1)) /\
     field "mark " (ce_commit e) = [(":" ++ str (2 * Z.of_nat i + 2))%string] /\
     field "M " (ce_commit e) =
       [("100644 :" ++ str (2 * Z.of_nat i + 1) ++ " README.md" ++ LF)%string]).
Proof.
  intros H h.
  destruct (build_state_spec H) as (start & R & _).
  pose proof (run_chained R) as C. fold h in C.
  pose proof (run_entries R) as E. fold h in E.
  pose proof (chained_marks _ _ _ C) as M.
  split; [exact M|]. split; [|split].
  - rewrite M. apply count_from_NoDup.
  - rewrite (run_mark R), (run_count R). fold h. lia.
  - intros i e He.
    destruct (chained_nth _ _ _ _ _ C He) as (Hb & Hm).
    pose proof (nth_error_Forall E He) as [_ Hc].
    split; [lia|]. split; [lia|]. split; [|split].
    + rewrite (run_parts R). fold h. clear - He Hb.
      replace (2 * Z.of_nat i + 1) with (ce_blob_mark e) by lia. clear Hb.
      revert i He. induction h as [|e0 h IH]; intros i He; [destruct i; discriminate|].
      destruct i as [|i].
      * cbn in He. injection He as <-. reflexivity.
      * cbn [nth_error] in He.
        replace (2 * S i)%nat with (S (S (2 * i))) by lia.
        cbn [flat_map render_entry app nth_error]. apply IH. exact He.
    + rewrite Hc, commit_lines_mark. do 3 f_equal. lia.
    + rewrite Hc, commit_lines_modify. do 4 f_equal. lia.
Qed.

Lemma marks_are_sequential_witness :
  build_state utc week_config "Ann" "ann@example.com" monday None dice =
    Ok week_state /\
  flat_map entry_marks (history (st_builder week_state)) =
    [1; 2; 3; 4; 5; 6; 7; 8; 9; 10; 11; 12; 13; 14; 15; 16; 17; 18; 19; 20;
     21; 22] /\
  NoDup (flat_map entry_marks (history (st_builder week_state))).
Proof.
  assert (H : build_state utc week_config "Ann" "ann@example.com" monday None
                dice = Ok week_state) by (vm_compute; reflexivity).
  split; [exact H|]. split; [vm_compute; reflexivity|].
  apply (marks_are_sequential utc week_config "Ann" "ann@example.com" monday
           None dice week_state H).
Defined.

(** ** The exceptions of the builder *)



Lemma randint_raise a b g e : randint a b g = Raise e -> b < a.
Proof.
  unfold randint. destruct (b <? a) eqn:E; [|discriminate].
  intros _. apply Z.ltb_lt. exact E.
Qed.












(** ** The window of dates *)

(** The day an entry belongs to, with what is known of both. *)
Lemma entry_on_its_day pf config name email curr_date parent_commit g start s e :
  valid_datetime curr_date ->
  run_spec pf config name email curr_date parent_commit g start s ->
  In e (history (st_builder s)) ->
  exists d n,
    In d (days s) /\ ce_day e = de_day d /\ de_outcome d = Commits n /\
    0 <= ce_minute_offset e < n /\ n <= 20 /\
    0 <= de_offset d < days_before config + days_after config /\
    toordinal (de_day d) =
      toordinal curr_date - days_before config + de_offset d /\
    toordinal (ce_time e) = toordinal (de_day d).
Proof.
  intros V R He.
  pose proof (run_start R) as Hs.
  pose proof (start_date_fields _ _ _ V Hs) as (So & Sh & Sm & _).
  pose proof (valid_wf_time _ (start_date_valid _ _ _ Hs)) as W.
  destruct (entry_day _ _ _ (run_slots R) He) as (d & Hd & Ed & Hk).
  pose proof (run_days R) as D. rewrite Forall_forall in D.
  pose proof (day_ok_count_bounds (D d Hd)) as Hc.
  pose proof (day_fields _ _ _ W (D d Hd)) as (Ho & Dh & Dm & _).
  pose proof (day_instant (D d Hd)) as [Vd _].
  assert (Io : In (de_offset d) (range (days_before config + days_after config))).
  { rewrite <- (run_offsets R). apply in_map. exact Hd. }
  apply in_range in Io.
  pose proof (run_entries R) as E. rewrite Forall_forall in E.
  destruct (E e He) as [Ht _]. rewrite Ed in Ht.
  apply add_minutes_fields in Ht; try (apply valid_wf_time; assumption); try lia.
  destruct Ht as (Ht & _).
  destruct (de_outcome d) as [| |n] eqn:Eo; cbn [day_count] in Hk, Hc; try lia.
  exists d, n. repeat split; try assumption; lia.
Qed.

(** X4: the window.  Every commit is dated on a day of the requested
    range: not before [days_before] days ago, and before [days_after]
    days from now. *)
Theorem commits_within_window pf config name email curr_date parent_commit g s :
  valid_datetime curr_date ->
  build_state pf config name email curr_date parent_commit g = Ok s ->
  Forall (fun e =>
            toordinal curr_date - days_before config <= toordinal (ce_time e) /\
            toordinal (ce_time e) < toordinal curr_date + days_after config)
         (history (st_builder s)).
Proof.
  intros V H. destruct (build_state_spec H) as (start & R & _).
  apply Forall_forall. intros e He.
  destruct (entry_on_its_day _ _ _ _ _ _ _ _ _ _ V R He)
    as (d & n & _ & _ & _ & _ & _ & Ho & Hd & Ht).
  lia.
Qed.

Lemma commits_within_window_witness :
  valid_datetime monday /\
  build_state utc week_config "Ann" "ann@example.com" monday None dice =
    Ok week_state /\
  Forall (fun e =>
            toordinal monday - days_before week_config
              <= toordinal (ce_time e) /\
            toordinal (ce_time e) < toordinal monday + days_after week_config)
         (history (st_builder week_state)).
Proof.
  assert (H : build_state utc week_config "Ann" "ann@example.com" monday None
                dice = Ok week_state) by (vm_compute; reflexivity).
  split; [exact monday_valid|]. split; [exact H|].
  exact (commits_within_window utc week_config "Ann"%string
           "ann@example.com"%string monday None dice week_state
           monday_valid H).
Defined.

(** X5: no commit on a weekend.  With [no_weekends] set, no commit of the
    stream is dated on a Saturday or a Sunday. *)
Theorem no_commit_on_weekend pf config name email curr_date parent_commit g s :
  valid_datetime curr_date ->
  no_weekends config = true ->
  build_state pf config name email curr_date parent_commit g = Ok s ->
  Forall (fun e => 0 <= weekday (ce_time e) <= 4) (history (st_builder s)).
Proof.
  intros V Hw H. destruct (build_state_spec H) as (start & R & _).
  apply Forall_forall. intros e He.
  destruct (entry_on_its_day _ _ _ _ _ _ _ _ _ _ V R He)
    as (d & n & Hd & _ & Eo & _ & _ & _ & _ & Ht).
  pose proof (run_days R) as D. rewrite Forall_forall in D.
  destruct (D d Hd) as [_ Hdec]. rewrite Eo in Hdec.
  apply decide_day_inv in Hdec.
  destruct Hdec as [(_ & _ & Hx & _) | (N & _)]; [discriminate|].
  pose proof (weekday_range (ce_time e)) as Wr.
  assert (Ew : weekday (ce_time e) = weekday (de_day d)).
  { unfold weekday. rewrite Ht. reflexivity. }
  rewrite Ew in *. split; [lia|].
  destruct (Z_le_gt_dec (weekday (de_day d)) 4) as [L|G]; [exact L|].
  exfalso. apply N. split; [assumption|lia].
Qed.

Lemma no_commit_on_weekend_witness :
  valid_datetime monday /\ no_weekends week_config = true /\
  build_state utc week_config "Ann" "ann@example.com" monday None dice =
    Ok week_state /\
  Forall (fun e => 0 <= weekday (ce_time e) <= 4)
         (history (st_builder week_state)).
Proof.
  assert (H : build_state utc week_config "Ann" "ann@example.com" monday None
                dice = Ok week_state) by (vm_compute; reflexivity).
  split; [exact monday_valid|]. split; [reflexivity|]. split; [exact H|].
  exact (no_commit_on_weekend utc week_config "Ann"%string
           "ann@example.com"%string monday None dice week_state
           monday_valid eq_refl H).
Defined.

(** ** The size of the stream *)

Lemma total_scheduled_bounds config start ds :
  Forall (day_ok config start) ds ->
  0 <= total_scheduled ds <=
    Z.max 1 (Z.min (max_commits config) 20) * Z.of_nat (List.length ds).
Proof.
  induction 1 as [|d ds Hd _ IH]; [cbn; lia|].
  cbn [total_scheduled fold_right List.length]. fold (total_scheduled ds).
  pose proof (day_ok_count _ _ _ Hd) as Hc.
  destruct (de_outcome d); cbn [day_count]; nia.
Qed.

Lemma length_range_nat n : List.length (range n) = Z.to_nat n.
Proof. unfold range. rewrite length_map, length_seq. reflexivity. Qed.

Lemma run_days_length {pf config name email curr_date parent_commit g start s} :
  run_spec pf config name email curr_date parent_commit g start s ->
  Z.of_nat (List.length (days s)) =
    Z.max 0 (days_before config + days_after config).
Proof.
  intros R.
  rewrite <- (length_map de_offset), (run_offsets R), length_range_nat. lia.
Qed.

Lemma length_render h :
  List.length (flat_map render_entry h) = (2 * List.length h)%nat.
Proof.
  induction h as [|e h IH]; [reflexivity|].
  cbn [flat_map render_entry app List.length]. rewrite IH. lia.
Qed.

(** X6: size.  A run visits [days_before + days_after] days, emits at
    most 20 commits for each of them, at most [max_commits] when that is
    within 1..20, and appends two parts per commit. *)
Theorem stream_size_bound pf config name email curr_date parent_commit g s :
  build_state pf config name email curr_date parent_commit g = Ok s ->
  let days_in_range := Z.max 0 (days_before config + days_after config) in
  Z.of_nat (List.length (days s)) = days_in_range /\
  0 <= count (st_builder s) <= 20 * days_in_range /\
  (1 <= max_commits config <= 20 ->
   count (st_builder s) <= max_commits config * days_in_range) /\
  Z.of_nat (List.length (parts (st_builder s))) = 2 * count (st_builder s).
Proof.
  intros H N. destruct (build_state_spec H) as (start & R & _).
  pose proof (run_days_length R) as L. fold N in L.
  pose proof (total_scheduled_bounds _ _ _ (run_days R)) as B.
  rewrite <- (run_total_count R), L in B.
  split; [exact L|]. split; [nia|]. split.
  - intros V. replace (Z.max 1 (Z.min (max_commits config) 20))
      with (max_commits config) in B by lia. lia.
  - rewrite (run_parts R), length_render, (run_count R). lia.
Qed.

Lemma stream_size_bound_witness :
  build_state utc week_config "Ann" "ann@example.com" monday None dice =
    Ok week_state /\
  1 <= max_commits week_config <= 20 /\
  count (st_builder week_state) = 11 /\
  count (st_builder week_state) <=
    max_commits week_config *
    Z.max 0 (days_before week_config + days_after week_config).
Proof.
  assert (H : build_state utc week_config "Ann" "ann@example.com" monday None
                dice = Ok week_state) by (vm_compute; reflexivity).
  assert (V : 1 <= max_commits week_config <= 20) by (cbn; lia).
  split; [exact H|]. split; [exact V|]. split; [vm_compute; reflexivity|].
  destruct (stream_size_bound utc week_config "Ann"%string
              "ann@example.com"%string monday None dice week_state H)
    as (_ & _ & B & _).
  exact (B V).
Defined.

Lemma blob_part_head m : exists rest, blob_part m = String "b"%char rest.
Proof. unfold blob_part. cbn [String.append]. eauto. Qed.

Lemma join_nonempty sep x l rest c :
  x = String c rest -> join sep (x :: l) <> EmptyString.
Proof.
  intros ->. unfold join. destruct l; cbn [concat String.append]; discriminate.
Qed.

(** X7: an empty stream means no commit.  The returned string is empty
    exactly when [count] is 0, so the test [if stream] of [main] is the
    test for at least one commit. *)
Theorem stream_empty_iff pf config name email curr_date parent_commit g s stream :
  build_state pf config name email curr_date parent_commit g = Ok s ->
  build_fast_import_stream pf config name email curr_date parent_commit g =
    Ok stream ->
  (stream = EmptyString <-> count (st_builder s) = 0).
Proof.
  intros H Hst. rewrite (stream_of_state H) in Hst. injection Hst as <-.
  destruct (build_state_spec H) as (start & R & _).
  rewrite (run_count R).
  destruct (history (st_builder s)) as [|e h]; [cbn; tauto|].
  cbn [flat_map render_entry app List.length]. split.
  - intros E. exfalso.
    destruct (blob_part_head (ce_blob_mark e)) as (rest & Hb).
    eapply join_nonempty; eassumption.
  - lia.
Qed.

Lemma stream_empty_iff_witness :
  build_state utc week_config "Ann" "ann@example.com" monday None dice =
    Ok week_state /\
  build_fast_import_stream utc week_config "Ann" "ann@example.com" monday
                           None dice = Ok week_stream /\
  (week_stream = EmptyString <-> count (st_builder week_state) = 0).
Proof.
  assert (H : build_state utc week_config "Ann" "ann@example.com" monday None
                dice = Ok week_state) by (vm_compute; reflexivity).
  assert (E : build_fast_import_stream utc week_config "Ann" "ann@example.com"
                monday None dice = Ok week_stream) by (vm_compute; reflexivity).
  split; [exact H|]. split; [exact E|].
  exact (stream_empty_iff utc week_config "Ann"%string
           "ann@example.com"%string monday None dice week_state week_stream
           H E).
Defined.

(** ** The frequency test and the draws *)

Lemma day_outcome_full_frequency config start d :
  100 <= frequency config -> day_ok config start d ->
  (no_weekends config = true /\ 5 <= weekday (de_day d) /\
   de_outcome d = SkippedWeekend) \/
  (exists n, de_outcome d = Commits n /\ 1 <= n).
Proof.
  intros F Hd. pose proof (day_ok_count _ _ _ Hd) as Hc.
  destruct Hd as [_ H]. apply decide_day_inv in H.
  destruct H as [(W1 & W2 & Ho & _) |
                 (_ & roll & g1 & Hr & [(L & _) | (_ & n & _ & Ho)])].
  - left. auto.
  - apply randint_ok in Hr. lia.
  - right. exists n. rewrite Ho in Hc. split; [assumption|lia].
Qed.

(** X8: a frequency of 100 or more.  Every day of the range receives at
    least one commit, except the Saturdays and Sundays that [no_weekends]
    excludes; without [no_weekends] the stream has at least one commit
    per day of the range. *)
Theorem full_frequency_every_day pf config name email curr_date parent_commit
    g s :
  build_state pf config name email curr_date parent_commit g = Ok s ->
  100 <= frequency config ->
  Forall (fun d =>
            (no_weekends config = true /\ 5 <= weekday (de_day d) /\
             de_outcome d = SkippedWeekend) \/
            (exists n, de_outcome d = Commits n /\ 1 <= n)) (days s) /\
  (no_weekends config = false ->
   Z.max 0 (days_before config + days_after config) <= count (st_builder s)).
Proof.
  intros H F. destruct (build_state_spec H) as (start & R & _).
  pose proof (run_days R) as D.
  assert (A : Forall (fun d =>
            (no_weekends config = true /\ 5 <= weekday (de_day d) /\
             de_outcome d = SkippedWeekend) \/
            (exists n, de_outcome d = Commits n /\ 1 <= n)) (days s)).
  { eapply Forall_impl; [|exact D]. intros d.
    apply day_outcome_full_frequency. exact F. }
  split; [exact A|]. intros W.
  rewrite (run_total_count R).
  rewrite <- (run_days_length R). clear - A W.
  induction A as [|d ds Hd _ IH]; [cbn; lia|].
  cbn [total_scheduled fold_right List.length]. fold (total_scheduled ds).
  destruct Hd as [(W' & _) | (n & -> & Hn)]; [congruence|].
  cbn [day_count]. lia.
Qed.

Lemma full_frequency_every_day_witness :
  build_state utc week_config "Ann" "ann@example.com" monday None dice =
    Ok week_state /\
  100 <= frequency week_config /\
  Forall (fun d =>
            (no_weekends week_config = true /\ 5 <= weekday (de_day d) /\
             de_outcome d = SkippedWeekend) \/
            (exists n, de_outcome d = Commits n /\ 1 <= n))
         (days week_state).
Proof.
  assert (H : build_state utc week_config "Ann" "ann@example.com" monday None
                dice = Ok week_state) by (vm_compute; reflexivity).
  assert (F : 100 <= frequency week_config) by (cbn; lia).
  split; [exact H|]. split; [exact F|].
  exact (proj1 (full_frequency_every_day utc week_config "Ann"%string
                  "ann@example.com"%string monday None dice week_state H F)).
Defined.

(** X9: a negative frequency.  No roll is below 0, so every day is
    skipped and the stream is empty. *)
Theorem negative_frequency_no_commit pf config name email curr_date
    parent_commit g s :
  build_state pf config name email curr_date parent_commit g = Ok s ->
  frequency config < 0 ->
  Forall (fun d => day_count (de_outcome d) = 0) (days s) /\
  count (st_builder s) = 0 /\
  build_fast_import_stream pf config name email curr_date parent_commit g =
    Ok EmptyString.
Proof.
  intros H F. destruct (build_state_spec H) as (start & R & _).
  pose proof (run_days R) as D.
  assert (A : Forall (fun d => day_count (de_outcome d) = 0) (days s)).
  { eapply Forall_impl; [|exact D]. intros d [_ Hd].
    apply decide_day_inv in Hd.
    destruct Hd as [(_ & _ & -> & _) |
                    (_ & roll & g1 & Hr & [(_ & -> & _) | (L & _)])];
      try reflexivity.
    apply randint_ok in Hr. lia. }
  assert (C : count (st_builder s) = 0).
  { rewrite (run_total_count R). clear - A.
    induction A as [|d ds Hd _ IH]; [reflexivity|].
    cbn [total_scheduled fold_right]. fold (total_scheduled ds). lia. }
  split; [exact A|]. split; [exact C|].
  rewrite (stream_of_state H).
  pose proof (run_count R) as L. rewrite C in L.
  destruct (history (st_builder s)); [reflexivity|cbn in L; lia].
Qed.

Lemma negative_frequency_no_commit_witness :
  build_state utc negative_config "Ann" "ann@example.com" monday None zeros =
    Ok negative_state /\
  frequency negative_config < 0 /\
  build_fast_import_stream utc negative_config "Ann" "ann@example.com" monday
                           None zeros = Ok EmptyString.
Proof.
  assert (H : build_state utc negative_config "Ann" "ann@example.com" monday
                None zeros = Ok negative_state) by (vm_compute; reflexivity).
  assert (F : frequency negative_config < 0) by (cbn; lia).
  split; [exact H|]. split; [exact F|].
  exact (proj2 (proj2 (negative_frequency_no_commit utc negative_config
                         "Ann"%string "ann@example.com"%string monday None
                         zeros negative_state H F))).
Defined.

Lemma decide_day_draws config maxc day g o g' :
  decide_day config maxc day g = Ok (o, g') ->
  entropy g' = entropy g /\ cursor g' = (cursor g + draws_of o)%nat.
Proof.
  intros H. apply decide_day_inv in H.
  destruct H as [(_ & _ & -> & ->) |
                 (_ & roll & g1 & Hr & [(_ & -> & ->) | (_ & n & Hn & ->)])];
    cbn [draws_of].
  - split; [reflexivity|lia].
  - apply randint_ok in Hr. destruct Hr as [_ ->]. cbn. split; [reflexivity|lia].
  - apply randint_ok in Hr, Hn. destruct Hr as [_ ->]. destruct Hn as [_ ->].
    cbn. split; [reflexivity|lia].
Qed.

Lemma random_chained_draws config start ds : forall g g',
  Forall (day_ok config start) ds -> random_chained g ds g' ->
  entropy g' = entropy g /\ cursor g' = (cursor g + total_draws ds)%nat.
Proof.
  induction ds as [|d ds IH]; intros g g' D C.
  - cbn in C. subst g'. cbn. split; [reflexivity|lia].
  - apply Forall_cons_iff in D. destruct D as [[_ Hd] D].
    cbn [random_chained] in C. destruct C as [Hb C].
    apply decide_day_draws in Hd. rewrite Hb in Hd. destruct Hd as [He Hc].
    destruct (IH _ _ D C) as [He' Hc'].
    cbn [total_draws fold_right]. fold (total_draws ds).
    split; [congruence|lia].
Qed.

(** X10: the draws.  A run takes its draws from the random source in
    order and without gaps: none for a day [no_weekends] excludes, one
    for a day the frequency test skips, two for a day that receives
    commits; the inner loop draws nothing. *)
Theorem draws_consumed pf config name email curr_date parent_commit g s :
  build_state pf config name email curr_date parent_commit g = Ok s ->
  entropy (st_random s) = entropy g /\
  cursor (st_random s) = (cursor g + total_draws (days s))%nat.
Proof.
  intros H. destruct (build_state_spec H) as (start & R & _).
  eapply random_chained_draws; [apply (run_days R)|apply (run_random R)].
Qed.

Lemma draws_consumed_witness :
  build_state utc week_config "Ann" "ann@example.com" monday None dice =
    Ok week_state /\
  total_draws (days week_state) = 10%nat /\
  cursor (st_random week_state) = (cursor dice + 10)%nat.
Proof.
  assert (H : build_state utc week_config "Ann" "ann@example.com" monday None
                dice = Ok week_state) by (vm_compute; reflexivity).
  assert (T : total_draws (days week_state) = 10%nat)
    by (vm_compute; reflexivity).
  split; [exact H|]. split; [exact T|].
  rewrite <- T.
  exact (proj2 (draws_consumed utc week_config "Ann"%string
                  "ann@example.com"%string monday None dice week_state H)).
Defined.

(** ** The week of the repository's test *)

(** With [no_weekends] and a frequency of 100 the weekday decides. *)
Lemma day_by_weekday config start d :
  wf_time start -> day_ok config start d ->
  no_weekends config = true -> 100 <= frequency config ->
  let w := (weekday start + de_offset d) mod 7 in
  let c := day_count (de_outcome d) in
  (5 <= w -> (0 <? c) = false /\ c = 0) /\
  (w < 5 -> (0 <? c) = true /\
            1 <= c <= Z.max 1 (Z.min (max_commits config) 20)).
Proof.
  intros W Hd N F w c.
  pose proof (day_weekday _ _ _ W Hd) as Hw. fold w in Hw.
  pose proof (day_ok_count _ _ _ Hd) as Hc.
  destruct Hd as [_ H]. apply decide_day_inv in H.
  subst c.
  destruct H as [(_ & W2 & -> & _) |
                 (NW & roll & g1 & Hr & [(L & _) | (_ & n & _ & Ho)])].
  - cbn [day_count]. split; [intros _; split; reflexivity|lia].
  - apply randint_ok in Hr. lia.
  - rewrite Ho in Hc |- *. cbn [day_count].
    split; [intros; exfalso; apply NW; split; [assumption|lia]|].
    intros _. split; [apply Z.ltb_lt|]; lia.
Qed.

Ltac settle_day H :=
  let A := fresh "A" in let B := fresh "B" in
  destruct H as [A B];
  first [ specialize (A ltac:(cbv; discriminate)); clear B; destruct A as [A B]
        | specialize (B ltac:(cbv; reflexivity)); clear A; destruct B as [A B] ].

(** X11: a week.  With [no_weekends] and a frequency of 100, a range of
    seven days has exactly five days with commits, whatever the date and
    the random source, and between 5 and 5 times the daily maximum
    commits; for the configuration of [test_commits_generation],
    [-nw -mc=3 -fr=100 -db=7 -da=0], that is 5 to 15 commits, within the
    1 to 21 the test asserts. *)
Theorem week_has_five_commit_days pf config name email curr_date parent_commit
    g s :
  valid_datetime curr_date ->
  build_state pf config name email curr_date parent_commit g = Ok s ->
  no_weekends config = true -> 100 <= frequency config ->
  days_before config + days_after config = 7 ->
  List.length (commit_days (days s)) = 5%nat /\
  5 <= count (st_builder s) <=
    5 * Z.max 1 (Z.min (max_commits config) 20).
Proof.
  intros V H N F L.
  destruct (build_state_spec H) as (start & R & _).
  pose proof (valid_wf_time _ (start_date_valid _ _ _ (run_start R))) as W.
  rewrite (run_total_count R).
  pose proof (run_offsets R) as O. rewrite L in O.
  pose proof (run_days R) as D.
  pose proof (weekday_range start) as Hw.
  set (M := Z.max 1 (Z.min (max_commits config) 20)) in *.
  destruct (days s) as [|d0 [|d1 [|d2 [|d3 [|d4 [|d5 [|d6 [|d7 ds]]]]]]]];
    try discriminate O.
  injection O as O0 O1 O2 O3 O4 O5 O6.
  repeat match goal with
         | D : Forall _ (_ :: _) |- _ =>
             let Hd := fresh "Hd" in
             apply Forall_cons_iff in D; destruct D as [Hd D];
             apply (day_by_weekday _ _ _ W) in Hd; [|assumption..];
             cbv zeta in Hd
         end.
  rewrite O0 in Hd. rewrite O1 in Hd0. rewrite O2 in Hd1. rewrite O3 in Hd2.
  rewrite O4 in Hd3. rewrite O5 in Hd4. rewrite O6 in Hd5.
  unfold commit_days, total_scheduled.
  cbn [filter fold_right List.length].
  assert (C : weekday start = 0 \/ weekday start = 1 \/ weekday start = 2 \/
              weekday start = 3 \/ weekday start = 4 \/ weekday start = 5 \/
              weekday start = 6) by lia.
  clear Hw.
  destruct C as [C|[C|[C|[C|[C|[C|C]]]]]]; rewrite C in *;
    settle_day Hd; settle_day Hd0; settle_day Hd1; settle_day Hd2;
    settle_day Hd3; settle_day Hd4; settle_day Hd5;
    repeat match goal with
           | E : (0 <? _) = _ |- _ => rewrite E; clear E
           end;
    cbn [List.length]; (split; [reflexivity|lia]).
Qed.

Lemma week_has_five_commit_days_witness :
  valid_datetime monday /\
  build_state utc week_config "Ann" "ann@example.com" monday None dice =
    Ok week_state /\
  List.length (commit_days (days week_state)) = 5%nat /\
  1 <= count (st_builder week_state) <= 21.
Proof.
  assert (H : build_state utc week_config "Ann" "ann@example.com" monday None
                dice = Ok week_state) by (vm_compute; reflexivity).
  split; [exact monday_valid|]. split; [exact H|].
  destruct (week_has_five_commit_days utc week_config "Ann"%string
              "ann@example.com"%string monday None dice week_state
              monday_valid H eq_refl ltac:(cbn; lia) eq_refl) as [A B].
  split; [exact A|]. cbn in B. lia.
Defined.

(** * Properties of the configuration check *)

(** X12: what [validate_config] accepts.  A configuration passes exactly
    when both day counts are not negative, the frequency is within
    0..100, [max_commits] within 1..20, and append mode comes with a
    repository; a configuration that passes is never clamped by the
    builder. *)
Theorem validate_config_accepts config :
  (validate_config config = Ok tt <->
   0 <= days_before config /\ 0 <= days_after config /\
   0 <= frequency config <= 100 /\ 1 <= max_commits config <= 20 /\
   (append config = true -> truthy (repository config) = true)) /\
  (validate_config config = Ok tt ->
   Z.max 1 (Z.min (max_commits config) 20) = max_commits config).
Proof.
  assert (A : validate_config config = Ok tt <->
   0 <= days_before config /\ 0 <= days_after config /\
   0 <= frequency config <= 100 /\ 1 <= max_commits config <= 20 /\
   (append config = true -> truthy (repository config) = true)).
  { unfold validate_config.
    destruct (days_before config <? 0) eqn:E1;
      [apply Z.ltb_lt in E1; split; [discriminate|lia]|apply Z.ltb_ge in E1].
    destruct (days_after config <? 0) eqn:E2;
      [apply Z.ltb_lt in E2; split; [discriminate|lia]|apply Z.ltb_ge in E2].
    destruct ((0 <=? frequency config) && (frequency config <=? 100)) eqn:E3;
      cbn [negb].
    2:{ apply andb_false_iff in E3. rewrite !Z.leb_gt in E3.
        split; [discriminate|lia]. }
    apply andb_true_iff in E3. rewrite !Z.leb_le in E3.
    destruct ((1 <=? max_commits config) && (max_commits config <=? 20)) eqn:E4;
      cbn [negb].
    2:{ apply andb_false_iff in E4. rewrite !Z.leb_gt in E4.
        split; [discriminate|lia]. }
    apply andb_true_iff in E4. rewrite !Z.leb_le in E4.
    destruct (append config); cbn [andb].
    - destruct (truthy (repository config)); cbn [negb].
      + split; [intros _; repeat split; lia || auto|reflexivity].
      + split; [discriminate|]. intros (_ & _ & _ & _ & T).
        specialize (T eq_refl). discriminate.
    - split; [intros _; repeat split; lia || discriminate|reflexivity]. }
  split; [exact A|]. intros H. apply A in H. lia.
Qed.

Lemma validate_config_accepts_witness :
  validate_config week_config = Ok tt /\
  Z.max 1 (Z.min (max_commits week_config) 20) = max_commits week_config.
Proof.
  assert (H : validate_config week_config = Ok tt) by reflexivity.
  split; [exact H|].
  exact (proj2 (validate_config_accepts week_config) H).
Defined.

(** * Properties of the directory names *)

Import Paths.

Import Paths.

Lemma chars_text l : chars (text l) = l.
Proof. apply list_ascii_of_string_of_list_ascii. Qed.

Lemma text_chars s : text (chars s) = s.
Proof. apply string_of_list_ascii_of_string. Qed.

Lemma chars_app a b : chars (a ++ b) = chars a ++ chars b.
Proof.
  induction a as [|c a IH]; [reflexivity|].
  cbn. f_equal. exact IH.
Qed.

Lemma string_app_assoc a b c : ((a ++ b) ++ c = a ++ b ++ c)%string.
Proof. induction a as [|x a IH]; [reflexivity|]. cbn. f_equal. exact IH. Qed.

Lemma length_chars s : List.length (chars s) = String.length s.
Proof. induction s as [|c s IH]; [reflexivity|]. cbn. f_equal. exact IH. Qed.

Lemma drop_while_app_all p l1 l2 :
  Forall (fun c => p c = true) l1 ->
  drop_while p (l1 ++ l2) = drop_while p l2.
Proof.
  induction 1 as [|c l1 Hc _ IH]; [reflexivity|].
  cbn. rewrite Hc. exact IH.
Qed.

Lemma take_while_app_all p l1 l2 :
  Forall (fun c => p c = true) l1 ->
  take_while p (l1 ++ l2) = l1 ++ take_while p l2.
Proof.
  induction 1 as [|c l1 Hc _ IH]; [reflexivity|].
  cbn. rewrite Hc. f_equal. exact IH.
Qed.

Lemma take_while_all p l : Forall (fun c => p c = true) (take_while p l).
Proof.
  induction l as [|c l IH]; [constructor|].
  cbn. destruct (p c) eqn:E; constructor; assumption.
Qed.

Lemma starts_with_app p l : starts_with p (p ++ l) = true.
Proof.
  induction p as [|c p IH]; [reflexivity|].
  cbn. rewrite Ascii.eqb_refl. exact IH.
Qed.

Lemma slash_is_in c : is_in "/" c = Ascii.eqb c "/".
Proof. unfold is_in. cbn. apply orb_false_r. Qed.

(** X13: the directory name has no [/].  Whatever the repository URL, the
    name derived from it is a single path component. *)
Theorem repository_name_no_slash repository :
  no_slash (repository_name repository).
Proof.
  unfold no_slash, repository_name, rsplit_last. rewrite chars_text.
  intros I. apply in_rev in I.
  pose proof (take_while_all (fun c => negb (Ascii.eqb c "/"))
                (rev (chars (if endswith (rstrip "/" repository) ".git"
                             then drop_last 4 (rstrip "/" repository)
                             else rstrip "/" repository)))) as F.
  rewrite Forall_forall in F. specialize (F _ I). discriminate.
Qed.

Lemma rstrip_slashes s slashes c :
  only_slashes slashes -> c <> "/"%char ->
  rstrip "/" (s ++ String c EmptyString ++ slashes) = (s ++ String c EmptyString)%string.
Proof.
  intros O N. unfold rstrip.
  rewrite !chars_app, !rev_app_distr, <- app_assoc.
  rewrite drop_while_app_all.
  - cbn [chars list_ascii_of_string rev app drop_while].
    rewrite slash_is_in. apply Ascii.eqb_neq in N. rewrite N.
    change (c :: rev (chars s)) with ([c] ++ rev (chars s)).
    rewrite rev_app_distr, rev_involutive. cbn [rev app].
    rewrite <- (text_chars (s ++ String c EmptyString)), chars_app. reflexivity.
  - apply Forall_rev. eapply Forall_impl; [|exact O].
    intros a ->. reflexivity.
Qed.

Lemma rsplit_last_component prefix n :
  no_slash n -> (prefix = EmptyString \/ endswith prefix "/" = true) ->
  rsplit_last "/" (prefix ++ n) = n.
Proof.
  intros N P. unfold rsplit_last.
  rewrite chars_app, rev_app_distr, take_while_app_all.
  - assert (T : take_while (fun c => negb (Ascii.eqb c "/")) (rev (chars prefix)) = []).
    { destruct P as [->|P]; [reflexivity|].
      unfold endswith in P. cbn [chars list_ascii_of_string rev app] in P.
      destruct (rev (chars prefix)) as [|a l]; [discriminate|].
      cbn [starts_with] in P. apply andb_true_iff in P. destruct P as [P _].
      apply Ascii.eqb_eq in P. subst a. reflexivity. }
    rewrite T, app_nil_r, rev_involutive. apply text_chars.
  - apply Forall_rev. apply Forall_forall. intros c Hc.
    apply negb_true_iff. apply Ascii.eqb_neq. intros ->. apply N. exact Hc.
Qed.

Lemma drop_last_app s suffix :
  drop_last (String.length suffix) (s ++ suffix) = s.
Proof.
  unfold drop_last.
  assert (E : (String.length (s ++ suffix) - String.length suffix)%nat =
              (List.length (chars s) + 0)%nat).
  { rewrite <- !length_chars, chars_app, length_app. lia. }
  rewrite E, chars_app, firstn_app_2. cbn [firstn].
  rewrite app_nil_r. apply text_chars.
Qed.

Lemma endswith_app s suffix : endswith (s ++ suffix) suffix = true.
Proof.
  unfold endswith. rewrite chars_app, rev_app_distr. apply starts_with_app.
Qed.

(** X14: the name of a [.git] URL.  For a URL that ends with a component
    [n], the suffix [.git] and any number of [/], the directory name is
    [n]. *)
Theorem repository_name_of_git_url prefix n slashes :
  no_slash n -> only_slashes slashes ->
  (prefix = EmptyString \/ endswith prefix "/" = true) ->
  repository_name (prefix ++ n ++ ".git" ++ slashes) = n.
Proof.
  intros N O P. unfold repository_name.
  replace (prefix ++ n ++ ".git" ++ slashes)%string
    with ((prefix ++ n ++ ".gi") ++ String "t" EmptyString ++ slashes)%string.
  2:{ rewrite !string_app_assoc. reflexivity. }
  rewrite rstrip_slashes by (assumption || discriminate).
  replace ((prefix ++ n ++ ".gi") ++ String "t" EmptyString)%string
    with ((prefix ++ n) ++ ".git")%string.
  2:{ rewrite !string_app_assoc. reflexivity. }
  rewrite endswith_app.
  change 4%nat with (String.length ".git"). rewrite drop_last_app.
  apply rsplit_last_component; assumption.
Qed.

Lemma repository_name_of_git_url_witness :
  no_slash "repo" /\ only_slashes "//" /\
  endswith "https://github.com/test/" "/" = true /\
  repository_name "https://github.com/test/repo.git//" = "repo"%string.
Proof.
  assert (N : no_slash "repo").
  { unfold no_slash. cbn. intros [H|[H|[H|[H|[]]]]]; discriminate. }
  assert (O : only_slashes "//") by (repeat constructor).
  split; [exact N|]. split; [exact O|]. split; [reflexivity|].
  exact (repository_name_of_git_url "https://github.com/test/" "repo" "//"
           N O (or_intror eq_refl)).
Defined.

Lemma rstrip_app_slashes s slashes :
  only_slashes slashes ->
  (forall c l, rev (chars s) = c :: l -> c <> "/"%char) ->
  rstrip "/" (s ++ slashes) = s.
Proof.
  intros O L. unfold rstrip.
  rewrite chars_app, rev_app_distr, drop_while_app_all.
  - destruct (rev (chars s)) as [|c l] eqn:E.
    + cbn. apply (f_equal (@rev ascii)) in E. rewrite rev_involutive in E.
      cbn in E. rewrite <- (text_chars s), E. reflexivity.
    + cbn [drop_while]. rewrite slash_is_in.
      pose proof (L c l eq_refl) as N. apply Ascii.eqb_neq in N. rewrite N.
      rewrite <- E, rev_involutive. apply text_chars.
  - apply Forall_rev. eapply Forall_impl; [|exact O].
    intros a ->. reflexivity.
Qed.

Lemma no_slash_app prefix n :
  no_slash n -> n <> EmptyString ->
  forall c l, rev (chars (prefix ++ n)) = c :: l -> c <> "/"%char.
Proof.
  intros N E c l H. rewrite chars_app, rev_app_distr in H.
  destruct (rev (chars n)) as [|a r] eqn:R.
  - exfalso. apply E. apply (f_equal (@rev ascii)) in R.
    rewrite rev_involutive in R. cbn in R.
    rewrite <- (text_chars n), R. reflexivity.
  - cbn in H. injection H as <- _. intros ->. apply N.
    apply in_rev. rewrite R. left. reflexivity.
Qed.

Lemma endswith_git_after_prefix prefix n :
  no_slash n -> n <> EmptyString ->
  (prefix = EmptyString \/ endswith prefix "/" = true) ->
  endswith (prefix ++ n) ".git" = endswith n ".git".
Proof.
  intros N E P. unfold endswith.
  rewrite chars_app, rev_app_distr.
  assert (Q : rev (chars prefix) = [] \/
              exists l, rev (chars prefix) = "/"%char :: l).
  { destruct P as [->|P]; [left; reflexivity|]. right.
    unfold endswith in P. cbn [chars list_ascii_of_string rev app] in P.
    destruct (rev (chars prefix)) as [|a l]; [discriminate|].
    cbn [starts_with] in P. apply andb_true_iff in P. destruct P as [P _].
    apply Ascii.eqb_eq in P. subst a. eauto. }
  cbn [chars list_ascii_of_string rev app].
  destruct (rev (chars n)) as [|a [|b [|c [|d r]]]];
    destruct Q as [->|(l & ->)]; cbn [app starts_with];
    rewrite ?app_nil_r; cbn [starts_with Ascii.eqb Bool.eqb andb];
    rewrite ?andb_false_r; reflexivity.
Qed.

(** X15: the name of a plain URL.  For a URL that ends with a non-empty
    component [n] that does not itself end with [.git], followed by any
    number of [/], the directory name is [n]. *)
Theorem repository_name_of_plain_url prefix n slashes :
  no_slash n -> n <> EmptyString -> endswith n ".git" = false ->
  only_slashes slashes ->
  (prefix = EmptyString \/ endswith prefix "/" = true) ->
  repository_name (prefix ++ n ++ slashes) = n.
Proof.
  intros N E G O P. unfold repository_name.
  rewrite <- string_app_assoc.
  rewrite rstrip_app_slashes by (assumption || apply no_slash_app; assumption).
  rewrite endswith_git_after_prefix, G by assumption.
  apply rsplit_last_component; assumption.
Qed.

Lemma repository_name_of_plain_url_witness :
  no_slash "repo" /\ "repo"%string <> EmptyString /\
  endswith "repo" ".git" = false /\ only_slashes "/" /\
  endswith "git@example.com:ann/" "/" = true /\
  repository_name "git@example.com:ann/repo/" = "repo"%string.
Proof.
  assert (N : no_slash "repo").
  { unfold no_slash. cbn. intros [H|[H|[H|[H|[]]]]]; discriminate. }
  assert (E : "repo"%string <> EmptyString) by discriminate.
  assert (O : only_slashes "/") by (repeat constructor).
  split; [exact N|]. split; [exact E|]. split; [reflexivity|].
  split; [exact O|]. split; [reflexivity|].
  exact (repository_name_of_plain_url "git@example.com:ann/" "repo" "/"
           N E eq_refl O (or_intror eq_refl)).
Defined.

Lemma pad2_inj a b ra rb :
  0 <= a < 100 -> 0 <= b < 100 ->
  (pad2 a ++ ra = pad2 b ++ rb)%string -> a = b /\ ra = rb.
Proof.
  intros Ha Hb E.
  assert (R : read_digits 2 0 (pad2 a ++ ra) = read_digits 2 0 (pad2 b ++ rb))
    by (rewrite E; reflexivity).
  rewrite !read_digits_pad2 in R by assumption.
  injection R as -> ->. auto.
Qed.

Lemma pad4_inj a b ra rb :
  0 <= a < 10000 -> 0 <= b < 10000 ->
  (pad4 a ++ ra = pad4 b ++ rb)%string -> a = b /\ ra = rb.
Proof.
  intros Ha Hb E.
  assert (R : read_digits 4 0 (pad4 a ++ ra) = read_digits 4 0 (pad4 b ++ rb))
    by (rewrite E; reflexivity).
  rewrite !read_digits_pad4 in R by assumption.
  injection R as -> ->. auto.
Qed.

Lemma append_cancel p a b : (p ++ a = p ++ b)%string -> a = b.
Proof.
  induction p as [|c p IH]; [trivial|].
  cbn. intros E. injection E as E. auto.
Qed.

(** X16: the default directory name.  Two runs without a repository get
    the same directory name only when they start within the same second
    of the same day.  The years are taken from 1000 on, where [%Y] has
    its four digits on every platform. *)
Theorem default_name_injective a b :
  valid_datetime a -> valid_datetime b ->
  1000 <= year a -> 1000 <= year b ->
  default_name a = default_name b ->
  year a = year b /\ month a = month b /\ day a = day b /\
  hour a = hour b /\ minute a = minute b /\ second a = second b.
Proof.
  unfold valid_datetime, valid_date, MINYEAR, MAXYEAR.
  intros ((Hya & Hma & Hda) & Hha & Hmia & Hsa & _)
         ((Hyb & Hmb & Hdb) & Hhb & Hmib & Hsb & _) _ _ E.
  pose proof (days_in_month_le_31 (year a) (month a)).
  pose proof (days_in_month_le_31 (year b) (month b)).
  unfold default_name in E.
  apply append_cancel in E.
  apply pad4_inj in E; try lia. destruct E as [Ey E].
  apply append_cancel in E.
  apply pad2_inj in E; try lia. destruct E as [Em E].
  apply append_cancel in E.
  apply pad2_inj in E; try lia. destruct E as [Ed E].
  apply append_cancel in E.
  apply pad2_inj in E; try lia. destruct E as [Eh E].
  apply append_cancel in E.
  apply pad2_inj in E; try lia. destruct E as [Emi E].
  apply append_cancel in E.
  assert (E' : (pad2 (second a) ++ EmptyString = pad2 (second b) ++ EmptyString)%string)
    by exact E.
  apply pad2_inj in E'; lia.
Qed.

Lemma default_name_injective_witness :
  valid_datetime monday /\ valid_datetime monday_sharp /\
  1000 <= year monday /\ 1000 <= year monday_sharp /\
  default_name monday = default_name monday_sharp /\
  second monday = second monday_sharp.
Proof.
  assert (V : valid_datetime monday_sharp).
  { unfold valid_datetime, valid_date, MINYEAR, MAXYEAR. cbn.
    repeat split; discriminate. }
  assert (Y : 1000 <= 2026) by lia.
  split; [exact monday_valid|]. split; [exact V|].
  split; [exact Y|]. split; [exact Y|]. split; [reflexivity|].
  apply (default_name_injective monday monday_sharp monday_valid V Y Y eq_refl).
Defined.

(** * Properties of the process *)

Import Process.

(** ** Events added *)

Lemma yields_ret {A} P (R : A -> Prop) (a : A) : R a -> yields P R (ret a).
Proof.
  intros Ha log log' r H. injection H as <- <-. exists [].
  rewrite app_nil_r. repeat split; [constructor|].
  intros a' E. injection E as <-. exact Ha.
Qed.

Lemma yields_halt {A} P (R : A -> Prop) s : yields P R (halt s).
Proof.
  intros log log' r H. injection H as <- <-. exists [].
  rewrite app_nil_r. repeat split; [constructor|]. discriminate.
Qed.

Lemma yields_lift {A} P (R : A -> Prop) (r : result A) :
  (forall a, r = Ok a -> R a) -> yields P R (lift r).
Proof.
  intros H. destruct r as [a|[| |m]]; cbn; auto using yields_ret, yields_halt.
Qed.

Lemma yields_bind {A B} P (R : A -> Prop) (R' : B -> Prop)
    (m : proc A) (k : A -> proc B) :
  yields P R m -> (forall a, R a -> yields P R' (k a)) ->
  yields P R' (pbind m k).
Proof.
  intros Hm Hk log log' r H. unfold pbind in H.
  destruct (m log) as [log1 [a|s]] eqn:E.
  - destruct (Hm _ _ _ E) as (n1 & -> & F1 & Ra).
    destruct (Hk a (Ra a eq_refl) _ _ _ H) as (n2 & -> & F2 & Rb).
    exists (n1 ++ n2). rewrite app_assoc. split; [reflexivity|].
    split; [apply Forall_app; auto|exact Rb].
  - injection H as <- <-. destruct (Hm _ _ _ E) as (n1 & -> & F1 & _).
    exists n1. repeat split; [assumption|discriminate].
Qed.

Lemma yields_one {A} P (R : A -> Prop) (e : event) (f : outcome A) :
  P e -> (forall a, f = Done a -> R a) ->
  yields P R (fun log => ((log ++ [e])%list, f)).
Proof.
  intros He Hf log log' r H. injection H as <- <-. exists [e]. auto.
Qed.

Lemma yields_run_checked P (R : unit -> Prop) w c prefix :
  P (Run c) -> R tt -> yields P R (run_checked w c prefix).
Proof.
  intros He Hr log log' r H. unfold run_checked in H.
  destruct (git_fails w c); injection H as <- <-; exists [Run c];
    repeat split; auto; try discriminate.
  intros []. auto.
Qed.

Lemma yields_os_call P (R : unit -> Prop) w e :
  P e -> R tt -> yields P R (os_call w e).
Proof.
  intros He Hr. unfold os_call. apply yields_one; [exact He|].
  intros []. auto.
Qed.

Lemma yields_weaken {A} (P Q : event -> Prop) (R R' : A -> Prop) (m : proc A) :
  (forall e, P e -> Q e) -> (forall a, R a -> R' a) ->
  yields P R m -> yields Q R' m.
Proof.
  intros I J H log log' r E. destruct (H _ _ _ E) as (new & -> & F & Ra).
  exists new. split; [reflexivity|]. split; [eapply Forall_impl; eassumption|].
  intros a Ea. auto.
Qed.

Ltac yields_step :=
  match goal with
  | |- emits _ _ => unfold emits
  | |- yields _ _ (pbind _ _) =>
      eapply yields_bind with (R := fun _ => True); [|intros ? _]
  | |- yields _ _ (ret _) => apply yields_ret; try exact I
  | |- yields _ _ (halt _) => apply yields_halt
  | |- yields _ _ (lift _) => apply yields_lift; intros; try exact I
  | |- yields _ _ (git _ _) => apply yields_run_checked; [|exact I]
  | |- yields _ _ (git_with_input _ _ _) =>
      apply yields_run_checked; [|exact I]
  | |- yields _ _ (run_checked _ _ _) => apply yields_run_checked; [|exact I]
  | |- yields _ _ (git_try _ _) =>
      unfold git_try; apply yields_one; [|intros; exact I]
  | |- yields _ _ (os_call _ _) => apply yields_os_call; [|exact I]
  | |- yields _ _ (git_config _ _) =>
      unfold git_config; apply yields_one; [|intros; exact I]
  | |- yields _ _ (get_head_commit _) =>
      unfold get_head_commit; apply yields_one; [|intros; exact I]
  end.

Lemma truthy_some s : truthy (Some s) = true <-> s <> EmptyString.
Proof. destruct s; cbn; split; congruence. Qed.

Lemma truthy_false_cases s :
  truthy s = false <-> s = None \/ s = Some EmptyString.
Proof.
  destruct s as [[|c r]|]; cbn; split; intros H; auto; try discriminate.
  - destruct H; discriminate.
Qed.

Lemma create_directory_yields w config curr_date P :
  P (Mkdir (create_name (repository config) curr_date)) ->
  yields P (fun d => d = create_name (repository config) curr_date)
         (create_directory w (repository config) curr_date).
Proof.
  intros Hp. unfold create_directory.
  destruct (path_exists w _); [apply yields_halt|].
  eapply yields_bind with (R := fun _ => True).
  - apply yields_os_call; [exact Hp|exact I].
  - intros _ _. apply yields_ret. reflexivity.
Qed.

(** [main] adds no event but those [allowed] lists. *)
Lemma main_allowed w pf config curr_date g :
  emits (allowed pf config curr_date g) (main w pf config curr_date g).
Proof.
  unfold main.
  yields_step. yields_step; [yields_step|].
  yields_step.
  { destruct (append config && truthy (repository config)) eqn:E.
    - apply andb_true_iff in E. destruct E as [Ea Er].
      destruct (repository config) as [url|] eqn:R; [|yields_step].
      apply truthy_some in Er.
      unfold setup_append_mode. repeat yields_step.
      + eapply allowed_clone; eassumption.
      + eapply allowed_clone_chdir; eassumption.
    - eapply yields_bind.
      + apply create_directory_yields. apply allowed_mkdir. exact E.
      + intros d ->. cbv beta. repeat yields_step.
        * apply allowed_chdir. exact E.
        * apply allowed_init. exact E. }
  yields_step.
  { destruct (user_name config) as [[|c r]|] eqn:U; yields_step;
      apply allowed_query_name; rewrite U; reflexivity. }
  yields_step.
  { destruct (user_email config) as [[|c r]|] eqn:U; yields_step;
      apply allowed_query_email; rewrite U; reflexivity. }
  destruct (String.eqb _ EmptyString); [yields_step|].
  destruct (String.eqb _ EmptyString); [yields_step|].
  yields_step.
  { destruct (user_name config) as [[|c r]|] eqn:U; yields_step.
    eapply allowed_set_name; [eassumption|discriminate]. }
  yields_step.
  { destruct (user_email config) as [[|c r]|] eqn:U; yields_step.
    eapply allowed_set_email; [eassumption|discriminate]. }
  yields_step.
  { destruct (append config) eqn:Ea; yields_step.
    apply allowed_rev_parse. exact Ea. }
  eapply yields_bind.
  { apply yields_lift. intros stream Hs. exact Hs. }
  intros stream Hs. cbv beta.
  yields_step.
  { destruct stream as [|c r]; repeat yields_step.
    - eapply allowed_import; [exact Hs|discriminate].
    - apply allowed_checkout. }
  destruct (repository config) as [[|c r]|] eqn:R;
    [yields_step| |yields_step].
  assert (T : truthy (repository config) = true) by (rewrite R; reflexivity).
  repeat yields_step.
  - destruct (append config) eqn:Ea; yields_step.
    eapply allowed_remote; [eassumption|eassumption|discriminate].
  - apply allowed_branch. exact T.
  - unfold push_to_remote. destruct (force config) eqn:F; repeat yields_step.
    + apply allowed_forced_push; assumption.
    + apply allowed_plain_push; assumption.
    + match goal with |- yields _ _ (if ?b then _ else _) => destruct b end;
        yields_step.
Qed.

(** ** What a run never does *)

(** X17: no forced push unless asked.  Without [force], no run ever calls
    [git push --force], whatever fails and whatever the other options. *)
Theorem never_forces_unasked w pf config curr_date g log r :
  main w pf config curr_date g [] = (log, r) ->
  force config = false ->
  ~ In forced_push (git_calls log).
Proof.
  intros H F I.
  destruct (main_allowed w pf config curr_date g _ _ _ H) as (new & -> & A & _).
  cbn [app] in I. unfold git_calls in I. apply in_flat_map in I.
  destruct I as (e & He & Ie). rewrite Forall_forall in A.
  specialize (A e He).
  destruct e as [c| | |]; try contradiction.
  destruct Ie as [->|[]].
  inversion A; congruence.
Qed.

Lemma never_forces_unasked_witness :
  force remote_config = false /\
  ~ In forced_push
       (git_calls (fst (main rejecting utc remote_config monday dice []))).
Proof.
  split; [reflexivity|].
  apply (never_forces_unasked rejecting utc remote_config monday dice
           (fst (main rejecting utc remote_config monday dice []))
           (snd (main rejecting utc remote_config monday dice []))).
  - apply surjective_pairing.
  - reflexivity.
Defined.

(** X18: nothing leaves the machine without a repository.  When no
    repository URL is given, a run makes no [clone], [remote] or [push]
    call. *)
Theorem offline_without_repository w pf config curr_date g log r :
  main w pf config curr_date g [] = (log, r) ->
  truthy (repository config) = false ->
  Forall (fun e => reaches_remote e = false) log.
Proof.
  intros H T.
  destruct (main_allowed w pf config curr_date g _ _ _ H) as (new & -> & A & _).
  cbn [app]. eapply Forall_impl; [|exact A].
  intros e He. pose proof (proj1 (truthy_false_cases _) T) as C.
  inversion He; subst; try reflexivity; try congruence;
    destruct C as [C|C]; congruence.
Qed.

Lemma offline_without_repository_witness :
  truthy (repository week_config) = false /\
  Forall (fun e => reaches_remote e = false)
         (fst (main calm utc week_config monday dice [])).
Proof.
  split; [reflexivity|].
  apply (offline_without_repository calm utc week_config monday dice
           (fst (main calm utc week_config monday dice []))
           (snd (main calm utc week_config monday dice []))).
  - apply surjective_pairing.
  - reflexivity.
Defined.

(** X19: the two modes.  In append mode (with a repository) a run makes
    no directory, initialises no repository and adds no remote; otherwise
    it never clones. *)
Theorem modes_keep_apart w pf config curr_date g log r :
  main w pf config curr_date g [] = (log, r) ->
  (append config && truthy (repository config) = true ->
   Forall (fun e => match e with
                    | Mkdir _ => False
                    | Run (Git (command :: _)) =>
                        command <> "init"%string /\ command <> "remote"%string
                    | _ => True
                    end) log) /\
  (append config && truthy (repository config) = false ->
   Forall (fun e => match e with
                    | Run (Git (command :: _)) => command <> "clone"%string
                    | _ => True
                    end) log).
Proof.
  intros H.
  destruct (main_allowed w pf config curr_date g _ _ _ H) as (new & -> & A & _).
  cbn [app]. split; intros M; (eapply Forall_impl; [|exact A]); intros e He.
  - apply andb_true_iff in M. destruct M as [Ma Mt].
    inversion He; subst; try exact I; try (split; discriminate);
      try (rewrite Ma, Mt in *; discriminate); congruence.
  - inversion He; subst; try exact I; try discriminate.
    rewrite H0, H1 in M. cbn in M.
    destruct url; [congruence|discriminate].
Qed.

Lemma modes_keep_apart_witness :
  (append append_config && truthy (repository append_config) = true ->
   Forall (fun e => match e with
                    | Mkdir _ => False
                    | Run (Git (command :: _)) =>
                        command <> "init"%string /\ command <> "remote"%string
                    | _ => True
                    end)
          (fst (main calm utc append_config monday dice []))) /\
  (append append_config && truthy (repository append_config) = false ->
   Forall (fun e => match e with
                    | Run (Git (command :: _)) => command <> "clone"%string
                    | _ => True
                    end)
          (fst (main calm utc append_config monday dice []))).
Proof.
  apply (modes_keep_apart calm utc append_config monday dice
           (fst (main calm utc append_config monday dice []))
           (snd (main calm utc append_config monday dice []))).
  apply surjective_pairing.
Defined.

(** X20: what is imported.  Whatever a run feeds to [git fast-import] is a
    non-empty stream the builder returned for this configuration, this
    date and this random source. *)
Theorem imports_only_built_streams w pf config curr_date g log r args input :
  main w pf config curr_date g [] = (log, r) ->
  In (GitWithInput args input) (git_calls log) ->
  args = ["fast-import"; "--quiet"]%string /\ input <> EmptyString /\
  exists name email parent_commit,
    build_fast_import_stream pf config name email curr_date parent_commit g =
      Ok input.
Proof.
  intros H I.
  destruct (main_allowed w pf config curr_date g _ _ _ H) as (new & -> & A & _).
  cbn [app] in I. unfold git_calls in I. apply in_flat_map in I.
  destruct I as (e & He & Ie). rewrite Forall_forall in A.
  specialize (A e He).
  destruct e as [c| | |]; try contradiction.
  destruct Ie as [->|[]].
  inversion A; subst. eauto 10.
Qed.

Lemma imports_only_built_streams_witness :
  In (GitWithInput ["fast-import"; "--quiet"]%string remote_stream)
     (git_calls (fst (main calm utc remote_config monday dice []))) /\
  exists name email parent_commit,
    build_fast_import_stream utc remote_config name email monday
                             parent_commit dice = Ok remote_stream.
Proof.
  assert (I : In (GitWithInput ["fast-import"; "--quiet"]%string remote_stream)
                 (git_calls (fst (main calm utc remote_config monday dice []))))
    by (vm_compute; right; left; reflexivity).
  split; [exact I|].
  exact (proj2 (proj2
           (imports_only_built_streams calm utc remote_config monday dice
              (fst (main calm utc remote_config monday dice []))
              (snd (main calm utc remote_config monday dice []))
              ["fast-import"; "--quiet"]%string remote_stream
              (surjective_pairing _) I))).
Defined.

(** ** Stopping at the first failure *)

Lemma fail_stop_ret {A} w (a : A) : fail_stop w (ret a).
Proof.
  intros log log' r H. injection H as <- _. exists [].
  rewrite app_nil_r. repeat split; constructor.
Qed.

Lemma fail_stop_halt {A} w s : fail_stop w (@halt A s).
Proof.
  intros log log' r H. injection H as <- _. exists [].
  rewrite app_nil_r. repeat split; constructor.
Qed.

Lemma fail_stop_lift {A} w (r : result A) : fail_stop w (lift r).
Proof.
  destruct r as [a|[| |m]]; cbn; auto using fail_stop_ret, fail_stop_halt.
Qed.

Lemma fail_stop_bind {A B} w (m : proc A) (k : A -> proc B) :
  fail_stop w m -> (forall a, fail_stop w (k a)) -> fail_stop w (pbind m k).
Proof.
  intros Hm Hk log log' r H. unfold pbind in H.
  destruct (m log) as [log1 [a|s]] eqn:E.
  - destruct (Hm _ _ _ E) as (n1 & -> & F1 & D1).
    destruct (Hk a _ _ _ H) as (n2 & -> & F2 & D2).
    specialize (D1 a eq_refl).
    exists (n1 ++ n2). rewrite app_assoc. split; [reflexivity|]. split.
    + destruct n2 as [|e n2].
      * rewrite app_nil_r. apply Forall_forall. intros x Hx.
        rewrite Forall_forall in D1. apply D1.
        clear - Hx. induction n1 as [|y [|z n1] IH]; cbn in *; [tauto|tauto|].
        destruct Hx as [->|Hx]; [left; reflexivity|right; apply IH; exact Hx].
      * rewrite removelast_app by discriminate.
        apply Forall_app. auto.
    + intros b Eb. apply Forall_app. split; [exact D1|eapply D2; exact Eb].
  - injection H as <- <-. destruct (Hm _ _ _ E) as (n1 & -> & F1 & _).
    exists n1. repeat split; [assumption|discriminate].
Qed.

Lemma fail_stop_run_checked w c prefix : fail_stop w (run_checked w c prefix).
Proof.
  intros log log' r H. unfold run_checked in H.
  destruct (git_fails w c) eqn:E; injection H as <- <-; exists [Run c];
    (split; [reflexivity|]); (split; [constructor|]).
  - discriminate.
  - intros _ _. constructor; [exact E|constructor].
Qed.

Lemma fail_stop_os_call w e :
  (exists name, e = Mkdir name \/ e = Chdir name) ->
  fail_stop w (os_call w e).
Proof.
  intros K log log' r H. unfold os_call in H. injection H as <- <-.
  exists [e]. split; [reflexivity|]. split; [constructor|].
  intros [] E. destruct (os_fails w e) eqn:F; [discriminate|].
  constructor; [|constructor].
  destruct K as (name & [->| ->]); exact F.
Qed.

Lemma fail_stop_query {A} w args (a : A) :
  fail_stop w (fun log => ((log ++ [Query args])%list, Done a)).
Proof.
  intros log log' r H. injection H as <- <-. exists [Query args].
  split; [reflexivity|]. split; [constructor|].
  intros _ _. constructor; [exact I|constructor].
Qed.

Lemma fail_stop_push_to_remote w force append :
  fail_stop w (push_to_remote w force append).
Proof.
  unfold push_to_remote. destruct force; [apply fail_stop_run_checked|].
  intros log log' r H. unfold pbind, git_try in H.
  destruct (git_fails w (Git ["push"; "-u"; "origin"; "main"]%string)) eqn:E;
    injection H as <- <-; eexists [_];
    (split; [reflexivity|]); (split; [constructor|]).
  - discriminate.
  - intros _ _. constructor; [exact E|constructor].
Qed.

Ltac fail_stop_step :=
  match goal with
  | |- fail_stop _ (pbind _ _) => apply fail_stop_bind; [|intros ?]
  | |- fail_stop _ (ret _) => apply fail_stop_ret
  | |- fail_stop _ (halt _) => apply fail_stop_halt
  | |- fail_stop _ (lift _) => apply fail_stop_lift
  | |- fail_stop _ (git _ _) => apply fail_stop_run_checked
  | |- fail_stop _ (git_with_input _ _ _) => apply fail_stop_run_checked
  | |- fail_stop _ (run_checked _ _ _) => apply fail_stop_run_checked
  | |- fail_stop _ (push_to_remote _ _ _) => apply fail_stop_push_to_remote
  | |- fail_stop _ (os_call _ _) => apply fail_stop_os_call; eauto
  | |- fail_stop _ (git_config _ _) => apply fail_stop_query
  | |- fail_stop _ (get_head_commit _) => apply fail_stop_query
  | |- fail_stop _ (setup_append_mode _ _) => unfold setup_append_mode
  | |- fail_stop _ (create_directory _ _ _) => unfold create_directory
  | |- fail_stop _ (match ?x with _ => _ end) => destruct x
  end.

(** X21: a run stops at the first failure.  Every event of a run but the
    last did what it was asked, and in a run that ends normally all of
    them did: after a call of [git], an [os.mkdir] or an [os.chdir] has
    failed, [main] touches nothing more. *)
Theorem main_stops_at_first_failure w pf config curr_date g log r :
  main w pf config curr_date g [] = (log, r) ->
  Forall (succeeded w) (removelast log) /\
  (r = Done tt -> Forall (succeeded w) log).
Proof.
  assert (F : fail_stop w (main w pf config curr_date g)).
  { unfold main. repeat fail_stop_step. }
  intros H. destruct (F _ _ _ H) as (new & -> & F1 & F2).
  cbn [app]. split; [exact F1|]. intros ->. apply (F2 tt). reflexivity.
Qed.

Lemma main_stops_at_first_failure_witness :
  Forall (succeeded rejecting)
         (removelast (fst (main rejecting utc remote_config monday dice []))) /\
  (snd (main rejecting utc remote_config monday dice []) = Done tt ->
   Forall (succeeded rejecting)
          (fst (main rejecting utc remote_config monday dice []))).
Proof.
  apply (main_stops_at_first_failure rejecting utc remote_config monday dice).
  apply surjective_pairing.
Defined.

(** ** The reasons a run stops for *)





Lemma validate_config_raise config e :
  validate_config config = Raise e ->
  exists rest, e = SystemExit ("Error: " ++ rest).
Proof.
  unfold validate_config.
  repeat match goal with
         | |- context [if ?b then _ else _] => destruct b
         end; intros H; try discriminate; injection H as <-;
    eexists; cbn [String.append]; reflexivity.
Qed.









(** ** Runs that leave no trace *)

Ltac appends_step :=
  first
    [ exact I
    | yields_step
    | match goal with
      | |- yields _ _ (push_to_remote _ _ _) => unfold push_to_remote
      | |- yields _ _ (if ?b then _ else _) => destruct b
      | |- yields _ _ (match ?x with _ => _ end) => destruct x
      end ].

(** The log after a first computation is kept by what follows. *)
Lemma pbind_first {A B} (m : proc A) (k : A -> proc B) log log' r :
  (forall a, emits (fun _ => True) (k a)) ->
  pbind m k log = (log', r) ->
  exists log1 r1 new,
    m log = (log1, r1) /\ log' = (log1 ++ new)%list /\
    (forall s, r1 = Stop s -> r = Stop s /\ new = []).
Proof.
  intros Hk H. unfold pbind in H.
  destruct (m log) as [log1 [a|s]] eqn:E.
  - destruct (Hk a _ _ _ H) as (new & -> & _).
    exists log1, (Done a), new. repeat split; discriminate.
  - injection H as <- <-. exists log1, (Stop s), []. rewrite app_nil_r.
    repeat split; congruence.
Qed.

(** X23: runs that leave no trace.  A run ends before its first event
    exactly when [validate_config] rejects the configuration, or when,
    outside append mode, the directory to create is there already; it
    then ends through [sys.exit], with the message of the rejection or
    with the message that names the directory.  Any other run has made
    the directory or called [git clone]. *)
Theorem no_event_iff w pf config curr_date g log r :
  main w pf config curr_date g [] = (log, r) ->
  (log = [] <->
   validate_config config <> Ok tt \/
   (append config && truthy (repository config) = false /\
    path_exists w (create_name (repository config) curr_date) = true)) /\
  (log = [] ->
   (exists message,
      validate_config config = Raise (SystemExit message) /\
      r = Stop (Exited message)) \/
   (validate_config config = Ok tt /\
    r = Stop (Exited ("Error: Directory '" ++
                      create_name (repository config) curr_date ++
                      "' already exists. Remove it or use a different name.")))).
Proof.
  intros H. unfold main in H.
  destruct (validate_config config) as [[]|e] eqn:V.
  2:{ destruct (validate_config_raise _ _ V) as (rest & ->).
      unfold pbind in H. cbn in H. injection H as <- <-.
      split; [split; [left; discriminate|reflexivity]|eauto]. }
  unfold pbind at 1 in H. cbn [lift ret] in H.
  apply pbind_first in H.
  2:{ intros _. unfold emits. repeat appends_step. }
  destruct H as (log1 & r1 & new & H & -> & S).
  assert (K : (log1 <> [] /\
               ~ (append config && truthy (repository config) = false /\
                  path_exists w (create_name (repository config) curr_date)
                    = true)) \/
              (log1 = [] /\
               r1 = Stop (Exited ("Error: Directory '" ++
                      create_name (repository config) curr_date ++
                      "' already exists. Remove it or use a different name.")) /\
               append config && truthy (repository config) = false /\
               path_exists w (create_name (repository config) curr_date)
                 = true)).
  { destruct (append config && truthy (repository config)) eqn:M.
    - left. split; [|intros (C & _); discriminate].
      destruct (repository config) as [url|].
      2:{ cbn in M. rewrite andb_false_r in M. discriminate. }
      unfold setup_append_mode, pbind, run_checked, os_call, ret in H.
      destruct (git_fails w _); [|destruct (os_fails w _)];
        injection H as <- <-; discriminate.
    - unfold create_directory, pbind, git, run_checked, os_call, ret, halt in H.
      destruct (path_exists w _) eqn:P.
      + right. injection H as <- <-. auto.
      + left. split; [|intros (_ & C); discriminate].
        destruct (os_fails w (Mkdir _)); [injection H as <- <-; discriminate|].
        destruct (os_fails w (Chdir _)); [injection H as <- <-; discriminate|].
        destruct (git_fails w _); injection H as <- <-; discriminate. }
  destruct K as [(N & C)|(-> & -> & C)].
  - split; [split|].
    + intros E. apply app_eq_nil in E. tauto.
    + intros [F|F]; [congruence|contradiction].
    + intros E. apply app_eq_nil in E. tauto.
  - destruct (S _ eq_refl) as (-> & ->).
    split; [split; [auto|reflexivity]|auto].
Qed.

Lemma no_event_iff_witness :
  path_exists crowded (create_name (repository remote_config) monday) = true /\
  main crowded utc remote_config monday dice [] =
    ([], Stop (Exited "Error: Directory 'demo' already exists. Remove it or use a different name.")) /\
  (@nil event = [] <->
   validate_config remote_config <> Ok tt \/
   (append remote_config && truthy (repository remote_config) = false /\
    path_exists crowded (create_name (repository remote_config) monday)
      = true)).
Proof.
  assert (H : main crowded utc remote_config monday dice [] =
    ([], Stop (Exited "Error: Directory 'demo' already exists. Remove it or use a different name.")))
    by (vm_compute; reflexivity).
  split; [reflexivity|]. split; [exact H|].
  exact (proj1 (no_event_iff crowded utc remote_config monday dice _ _ H)).
Defined.

(** X24: the calls of a run on which nothing fails.  On a machine where
    no call fails and no directory is in the way, [main] ends normally
    and its calls of [git] are the clone or the [git init] followed by
    the calls of the second half of [main]; it stops only if the builder
    raises or the identity is missing. *)
Theorem main_on_obliging_machine w pf config curr_date g :
  obliging w ->
  validate_config config = Ok tt ->
  match Contribute.main pf config curr_date
          (snd (query w ["config"; "--global"; "user.name"]%string))
          (snd (query w ["config"; "--global"; "user.email"]%string))
          (head_of w) g with
  | Ok calls =>
      exists log,
        Process.main w pf config curr_date g [] = (log, Done tt) /\
        git_calls log = setup_call config :: calls
  | Raise (SystemExit message) =>
      exists log,
        Process.main w pf config curr_date g [] = (log, Stop (Exited message))
  | Raise e =>
      exists log,
        Process.main w pf config curr_date g [] = (log, Stop (Uncaught e))
  end.
Proof.
  intros (Hp & Ho & Hg) V.
  unfold Contribute.main, Process.main, setup_call, head_of.
  unfold pbind at 1. rewrite V. cbn [lift ret].
  destruct config as [nw mc fr db da repo uname uemail frc app].
  cbn [append repository user_name user_email force] in *.
  set (qn := snd (query w ["config"; "--global"; "user.name"]%string)).
  set (qe := snd (query w ["config"; "--global"; "user.email"]%string)).
  destruct (query w ["rev-parse"; "HEAD"]%string) as [rc out] eqn:Q.
  destruct app; destruct repo as [[|rc0 rr]|]; cbn [truthy andb];
    destruct uname as [[|nc nr]|]; destruct uemail as [[|ec er]|];
    cbn [or_else];
    repeat (progress (cbv beta iota zeta delta
                        [pbind setup_append_mode create_directory run_checked
                         git git_with_input git_config get_head_commit os_call
                         push_to_remote git_try ret halt];
                      rewrite ?Hp, ?Ho, ?Hg, ?Q));
    fold qn qe;
    repeat match goal with
      | |- context [String.eqb ?x EmptyString] =>
          destruct (String.eqb x EmptyString)
      end;
    try (eexists; reflexivity);
    match goal with
    | |- context [build_fast_import_stream ?a ?b ?c ?d ?e ?f ?h] =>
        destruct (build_fast_import_stream a b c d e f h) as [[|sc sr]|[| |m]]
    end;
    cbn [lift bind];
    repeat (progress (cbv beta iota zeta delta
                        [pbind run_checked git git_with_input push_to_remote
                         git_try ret halt];
                      rewrite ?Hp, ?Ho, ?Hg));
    try (eexists; reflexivity);
    destruct frc;
    repeat (progress (cbv beta iota zeta delta
                        [pbind run_checked git git_with_input push_to_remote
                         git_try ret halt];
                      rewrite ?Hp, ?Ho, ?Hg));
    try (eexists; reflexivity);
    (eexists; split; [reflexivity|]; reflexivity).
Qed.

Lemma calm_obliging : obliging calm.
Proof. repeat split. Qed.

Lemma main_on_obliging_machine_witness :
  obliging calm /\ validate_config remote_config = Ok tt /\
  exists log,
    Process.main calm utc remote_config monday dice [] = (log, Done tt) /\
    git_calls log =
      setup_call remote_config ::
      [GitWithInput ["fast-import"; "--quiet"]
         (match build_fast_import_stream utc remote_config "Ann"
                  "ann@example.com" monday None dice with
          | Ok stream => stream
          | Raise _ => EmptyString
          end);
       Git ["checkout"; "main"];
       Git ["remote"; "add"; "origin"; demo_url];
       Git ["branch"; "-M"; "main"];
       Git ["push"; "-u"; "origin"; "main"]]%string.
Proof.
  split; [exact calm_obliging|]. split; [reflexivity|].
  pose proof (main_on_obliging_machine calm utc remote_config monday dice
                calm_obliging eq_refl) as H.
  assert (E : Contribute.main utc remote_config monday
                (snd (query calm ["config"; "--global"; "user.name"]%string))
                (snd (query calm ["config"; "--global"; "user.email"]%string))
                (head_of calm) dice =
              Ok [GitWithInput ["fast-import"; "--quiet"]
         (match build_fast_import_stream utc remote_config "Ann"
                  "ann@example.com" monday None dice with
          | Ok stream => stream
          | Raise _ => EmptyString
          end);
       Git ["checkout"; "main"];
       Git ["remote"; "add"; "origin"; demo_url];
       Git ["branch"; "-M"; "main"];
       Git ["push"; "-u"; "origin"; "main"]]%string)
    by (vm_compute; reflexivity).
  rewrite E in H. exact H.
Defined.

(** ** The identity *)

(** X25: the identity stays local.  A run reads the global configuration,
    and only for the part of the identity the options leave out; the
    only [git config] calls it makes set the local [user.name] and
    [user.email] to the values of the options; and it queries nothing
    but these two keys and [HEAD]. *)
Theorem identity_stays_local w pf config curr_date g log r :
  main w pf config curr_date g [] = (log, r) ->
  (forall args, In (Git ("config"%string :: args)) (git_calls log) ->
     (exists name, user_name config = Some name /\ name <> EmptyString /\
                   args = ["user.name"; name]%string) \/
     (exists email, user_email config = Some email /\ email <> EmptyString /\
                    args = ["user.email"; email]%string)) /\
  (forall args, In (Query args) log ->
     (args = ["config"; "--global"; "user.name"]%string /\
      truthy (user_name config) = false) \/
     (args = ["config"; "--global"; "user.email"]%string /\
      truthy (user_email config) = false) \/
     (args = ["rev-parse"; "HEAD"]%string /\ append config = true)).
Proof.
  intros H.
  destruct (main_allowed w pf config curr_date g _ _ _ H) as (new & -> & A & _).
  cbn [app]. rewrite Forall_forall in A. split.
  - intros args I. unfold git_calls in I. apply in_flat_map in I.
    destruct I as (e & He & Ie). specialize (A e He).
    destruct e as [c| | |]; try contradiction.
    destruct Ie as [->|[]].
    inversion A; subst; eauto.
  - intros args I. specialize (A _ I). inversion A; subst; auto.
Qed.

Lemma identity_stays_local_witness :
  In (Query ["rev-parse"; "HEAD"]%string)
     (fst (main calm utc append_config monday dice [])) /\
  ((["rev-parse"; "HEAD"] = ["config"; "--global"; "user.name"] /\
    truthy (user_name append_config) = false) \/
   (["rev-parse"; "HEAD"] = ["config"; "--global"; "user.email"] /\
    truthy (user_email append_config) = false) \/
   (["rev-parse"; "HEAD"] = ["rev-parse"; "HEAD"] /\
    append append_config = true))%string.
Proof.
  assert (I : In (Query ["rev-parse"; "HEAD"]%string)
                 (fst (main calm utc append_config monday dice [])))
    by (vm_compute; do 4 right; left; reflexivity).
  split; [exact I|].
  exact (proj2 (identity_stays_local calm utc append_config monday dice
                  (fst (main calm utc append_config monday dice []))
                  (snd (main calm utc append_config monday dice []))
                  (surjective_pairing _))
           ["rev-parse"; "HEAD"]%string I).
Defined.

(** ** The directory *)

Lemma rstrip_only_slashes s : only_slashes s -> rstrip "/" s = EmptyString.
Proof.
  intros O. unfold rstrip.
  rewrite <- (app_nil_r (rev (chars s))), drop_while_app_all; [reflexivity|].
  apply Forall_rev. unfold only_slashes in O.
  eapply Forall_impl; [|exact O]. intros c ->. reflexivity.
Qed.

(** X26: a repository of slashes.  A repository option made of [/] only
    is not empty, so it is taken as a repository, and the directory name
    derived from it is the empty string: [create_directory] does not fall
    back to the default name. *)
Theorem slashes_give_empty_name repository curr_date :
  repository <> EmptyString -> only_slashes repository ->
  truthy (Some repository) = true /\
  repository_name repository = EmptyString /\
  create_name (Some repository) curr_date = EmptyString.
Proof.
  intros N O.
  assert (E : repository_name repository = EmptyString).
  { unfold repository_name. rewrite (rstrip_only_slashes _ O). reflexivity. }
  split; [apply truthy_some; exact N|]. split; [exact E|].
  destruct repository as [|c r]; [contradiction|exact E].
Qed.

Lemma slashes_give_empty_name_witness :
  "//"%string <> EmptyString /\ only_slashes "//" /\
  create_name (Some "//"%string) monday = EmptyString.
Proof.
  assert (N : "//"%string <> EmptyString) by discriminate.
  assert (O : only_slashes "//") by (repeat constructor).
  split; [exact N|]. split; [exact O|].
  exact (proj2 (proj2 (slashes_give_empty_name "//" monday N O))).
Defined.

Lemma has_chdir_app l1 l2 : has_chdir (l1 ++ l2) = has_chdir l1 || has_chdir l2.
Proof. apply existsb_app. Qed.

Lemma in_directory_entered log : in_directory true log = true.
Proof. induction log as [|[c|a|n|n] log IH]; cbn; auto. Qed.

Lemma in_directory_app b l1 l2 :
  in_directory b (l1 ++ l2) =
    in_directory b l1 && in_directory (b || has_chdir l1) l2.
Proof.
  revert b. induction l1 as [|[c|a|n|n] l1 IH]; intros b; cbn [app in_directory].
  - cbn. rewrite orb_false_r. reflexivity.
  - rewrite IH. cbn. rewrite andb_assoc. reflexivity.
  - rewrite IH. cbn. rewrite andb_assoc. reflexivity.
  - rewrite IH. reflexivity.
  - cbn [has_chdir existsb orb]. rewrite orb_true_r, !in_directory_entered.
    reflexivity.
Qed.

Lemma tracks_ret {A} pre (a : A) : tracks pre pre (ret a).
Proof.
  intros log log' r H Hp. injection H as <- <-. exists [].
  rewrite app_nil_r. repeat split. intros _ _ E. auto.
Qed.

Lemma tracks_halt {A} pre post s : tracks pre post (@halt A s).
Proof.
  intros log log' r H Hp. injection H as <- <-. exists [].
  rewrite app_nil_r. repeat split. discriminate.
Qed.

Lemma tracks_lift {A} pre (r : result A) : tracks pre pre (lift r).
Proof.
  destruct r as [a|[| |m]]; cbn; auto using tracks_ret, tracks_halt.
Qed.

Lemma tracks_bind {A B} a b c (m : proc A) (k : A -> proc B) :
  tracks a b m -> (forall x, tracks b c (k x)) -> tracks a c (pbind m k).
Proof.
  intros Hm Hk log log' r H Hp. unfold pbind in H.
  destruct (m log) as [log1 [x|s]] eqn:E.
  - destruct (Hm _ _ _ E Hp) as (n1 & -> & D1 & C1).
    destruct (Hk x _ _ _ H (C1 x eq_refl)) as (n2 & -> & D2 & C2).
    exists (n1 ++ n2). rewrite app_assoc. split; [reflexivity|].
    split; [|exact C2].
    rewrite in_directory_app, D1. rewrite has_chdir_app in D2. exact D2.
  - injection H as <- <-. destruct (Hm _ _ _ E Hp) as (n1 & -> & D1 & _).
    exists n1. repeat split; [assumption|discriminate].
Qed.

Lemma tracks_one {A} pre post (e : event) (f : outcome A) :
  (pre = true -> in_directory true [e] = true) ->
  (pre = false -> in_directory false [e] = true) ->
  (post = true -> pre = true \/ has_chdir [e] = true) ->
  tracks pre post (fun log => ((log ++ [e])%list, f)).
Proof.
  intros Ht Hf Hpost log log' r H Hp. injection H as <- <-. exists [e].
  split; [reflexivity|]. split.
  - destruct pre.
    + rewrite (Hp eq_refl). apply in_directory_entered.
    + destruct (has_chdir log); [apply in_directory_entered|auto].
  - intros a _ Po. rewrite has_chdir_app.
    destruct (Hpost Po) as [-> | ->]; [rewrite (Hp eq_refl)|rewrite orb_true_r];
      reflexivity.
Qed.

Lemma tracks_run_checked pre w c prefix :
  pre = true \/ is_clone c = true ->
  tracks pre pre (run_checked w c prefix).
Proof.
  intros K log log' r H Hp. unfold run_checked in H.
  assert (D : in_directory (has_chdir log) [Run c] = true).
  { cbn. destruct K as [-> | ->]; [rewrite (Hp eq_refl)|rewrite orb_true_r];
      reflexivity. }
  destruct (git_fails w c); injection H as <- <-; exists [Run c];
    (split; [reflexivity|]); (split; [exact D|]);
    intros a _ Po; rewrite has_chdir_app, (Hp Po); reflexivity.
Qed.

Lemma tracks_os_call pre w e :
  (exists name, e = Mkdir name) ->
  tracks pre pre (os_call w e).
Proof.
  intros (name & ->). unfold os_call. apply tracks_one; auto.
Qed.

Lemma tracks_chdir pre w name : tracks pre true (os_call w (Chdir name)).
Proof. unfold os_call. apply tracks_one; auto. Qed.

Lemma tracks_create_directory pre w repository curr_date :
  tracks pre pre (create_directory w repository curr_date).
Proof.
  unfold create_directory. destruct (path_exists w _); [apply tracks_halt|].
  eapply tracks_bind; [apply tracks_os_call; eauto|intros _].
  apply tracks_ret.
Qed.

Ltac tracks_step :=
  match goal with
  | |- tracks _ _ (pbind _ _) => eapply tracks_bind; [|intros ?]
  | |- tracks _ _ (ret _) => apply tracks_ret
  | |- tracks _ _ (halt _) => apply tracks_halt
  | |- tracks _ _ (lift _) => apply tracks_lift
  | |- tracks _ _ (git _ _) => apply tracks_run_checked; auto
  | |- tracks _ _ (git_with_input _ _ _) => apply tracks_run_checked; auto
  | |- tracks _ _ (run_checked _ _ _) => apply tracks_run_checked; auto
  | |- tracks _ _ (git_try _ _) => unfold git_try; apply tracks_one; auto
  | |- tracks _ _ (os_call _ (Chdir _)) => apply tracks_chdir
  | |- tracks _ _ (os_call _ (Mkdir _)) => apply tracks_os_call; eauto
  | |- tracks _ _ (git_config _ _) =>
      unfold git_config; apply tracks_one; auto
  | |- tracks _ _ (get_head_commit _) =>
      unfold get_head_commit; apply tracks_one; auto
  | |- tracks _ _ (push_to_remote _ _ _) => unfold push_to_remote
  | |- tracks _ _ (if ?b then _ else _) => destruct b
  | |- tracks _ _ (match ?x with _ => _ end) => destruct x
  end.

(** X27: git runs in the new directory.  In every run, every call of
    [git] other than the clone, and every query, comes after an
    [os.chdir]: nothing is initialised, imported, configured or pushed
    from the directory the program was started in. *)
Theorem git_runs_in_directory w pf config curr_date g log r :
  main w pf config curr_date g [] = (log, r) ->
  in_directory false log = true.
Proof.
  assert (F : tracks false true (main w pf config curr_date g)).
  { unfold main.
    eapply tracks_bind; [apply tracks_lift|intros _].
    eapply tracks_bind.
    { destruct (append config && truthy (repository config)) eqn:E.
      - destruct (repository config) as [url|].
        2:{ cbn in E. rewrite andb_false_r in E. discriminate. }
        unfold setup_append_mode. repeat tracks_step.
      - eapply tracks_bind; [apply tracks_create_directory|intros d].
        repeat tracks_step. }
    intros _. repeat tracks_step. }
  intros H. destruct (F _ _ _ H) as (new & -> & D & _); [discriminate|].
  exact D.
Qed.

Lemma git_runs_in_directory_witness :
  in_directory false
    (fst (main rejecting utc append_config monday dice [])) = true.
Proof.
  exact (git_runs_in_directory rejecting utc append_config monday dice
           (fst (main rejecting utc append_config monday dice []))
           (snd (main rejecting utc append_config monday dice []))
           (surjective_pairing _)).
Defined.

(** ** Uncaught exceptions *)







